(** * Conway's Game of Life in C (gameOfLife.c): a shallow embedding

    The C program keeps a [Grid] as an array of rows of [char], a [Game] as
    two grids and a pointer to the current one, and steps the automaton by
    reading the current grid and writing the other one.

    Conventions of the embedding:
    - [long long], [size_t] and [char] values are integers in [Z]; every
      conversion to [char] is written out as [char_of_int];
    - a C call that can hit undefined behaviour (division by zero in
      [lldiv], a load or store outside the allocated storage) or recurse
      without bound returns an [outcome];
    - the heap cells a grid owns are held by value in the grid
      ([origin : list (list Z)]), a [char *] into them is an index pair;
    - [malloc]/[calloc] and [rand] are explicit oracles;
    - arithmetic on [long long] is exact: on a grid made by [createGrid]
      the sizes are [long long] values, so the coordinates [i - 1], [i + 1],
      [j - 1], [j + 1] of the loops and the results of [lldivPositive]
      (lemma [lldivPositive_in_llong]) are in range. *)

From stdpp Require Import base tactics option list numbers.
From Stdlib Require Import ZArith Lia Bool.

Local Open Scope Z_scope.

(** ** Constants of the program *)

Definition GOL__CELL_STATE__OFF : Z := 0.
Definition GOL__CELL_STATE__ON : Z := 1.
Definition GOL__CELL_STATE__INVALID : Z := 2.

Definition GOL__OOBR__ALL_OFF : Z := 0.
Definition GOL__OOBR__ALL_ON : Z := 1.
Definition GOL__OOBR__TORUS : Z := 2.

(** [sizeof( char )] is 1 in every C implementation; [CHAR_BIT] is 8 on the
    platforms the program names (Windows and Linux). *)
Definition sizeof_char : Z := 1.
Definition CHAR_BIT : Z := 8.

Definition LLONG_MAX : Z := 2 ^ 63 - 1.
Definition LLONG_MIN : Z := - 2 ^ 63.

Definition in_llong (z : Z) : Prop := LLONG_MIN <= z <= LLONG_MAX.

(** Conversion of an [int] to [char] (a signed 8-bit [char], as with gcc on
    x86; on the values the program converts, 0, 1 and 2 and bytes or-ed
    with them, an unsigned [char] gives the same results). *)
Definition char_of_int (z : Z) : Z := (z + 128) mod 256 - 128.

(** ** Outcomes of a call *)

Inductive outcome (A : Type) : Type :=
| Ret (a : A)
| Undefined
| Diverges.

Arguments Ret {A} a.
Arguments Undefined {A}.
Arguments Diverges {A}.

Definition obind {A B : Type} (m : outcome A) (k : A -> outcome B) : outcome B :=
  match m with
  | Ret a => k a
  | Undefined => Undefined
  | Diverges => Diverges
  end.

Notation "'let!' x ':=' m 'in' k" := (obind m (fun x => k))
  (at level 10, x name, m at level 100, k at level 200).

(** ** Data structures *)

Record lldiv_t : Type := { quot : Z; rem : Z }.

Record Grid : Type := {
  origin : list (list Z);
  gridSizeX : Z;
  gridSizeY : Z;
  arraySizeX : Z;
  arraySizeY : Z;
  outOfBoundsRule : Z
}.

(** [currentGridPtr] is a [Grid *]; the program compares it with the
    addresses of the two grids of the game and reports any other value. *)
Inductive GridPtr : Type := PtrGridA | PtrGridB | PtrOther.

Record Game : Type := {
  gridA : Grid;
  gridB : Grid;
  currentGridPtr : GridPtr
}.

(** [storageCharPtr] is [NULL] ([None]) or the address of [origin[i][j]]. *)
Record CellIndex : Type := {
  storageCharPtr : option (nat * nat);
  bitIndex : Z
}.

(** ** Modulo functions *)

(** [lldiv] of the C library: truncating division; undefined for a zero
    divisor and for the one quotient that is not representable. *)
Definition lldiv (numer denom : Z) : outcome lldiv_t :=
  if denom =? 0 then Undefined
  else if (numer =? LLONG_MIN) && (denom =? -1) then Undefined
  else Ret {| quot := Z.quot numer denom; rem := Z.rem numer denom |}.

Definition lldivGreater (dividend divisor : Z) : outcome lldiv_t :=
  let! normal := lldiv dividend divisor in
  if rem normal =? 0 then
    Ret {| quot := quot normal; rem := rem normal |}
  else if ((dividend >=? 0) && (divisor >=? 0)) || ((dividend <? 0) && (divisor <? 0)) then
    Ret {| quot := quot normal + 1; rem := rem normal - divisor |}
  else
    Ret {| quot := quot normal - 1; rem := rem normal + divisor |}.

Definition lldivPositive (dividend divisor : Z) : outcome lldiv_t :=
  let! normal := lldiv dividend divisor in
  if rem normal >=? 0 then Ret normal
  else Ret {| quot := quot normal - 1; rem := rem normal + divisor |}.

(** ** Grid: create *)

(** Results of the allocation calls of one [createGrid]: the [malloc] of the
    [Grid], the [calloc] of [origin], and the [calloc] of row [i]. *)
Record Allocator : Type := {
  malloc_ok : bool;
  calloc_origin_ok : bool;
  calloc_row_ok : nat -> bool
}.

(** The [while] loop of [createGrid]: rows [i], [i+1], ... are allocated
    zero-filled until one allocation fails ([None], after which the program
    rolls back and returns [NULL]). *)
Fixpoint allocRows (a : Allocator) (n i : nat) (rowLen : Z) : option (list (list Z)) :=
  match n with
  | O => Some []
  | S n' =>
      if calloc_row_ok a i then
        match allocRows a n' (S i) rowLen with
        | Some rows => Some (replicate (Z.to_nat rowLen) 0 :: rows)
        | None => None
        end
      else None
  end.

(** [createGrid]: [Ret None] is the [NULL] result. *)
Definition createGrid (a : Allocator) (sizeX sizeY : Z) (rule : Z) : outcome (option Grid) :=
  if (sizeX <? 0) || (sizeY <? 0) then Ret None
  else if negb (malloc_ok a) then Ret None
  else
    let asx := sizeX in
    let! d := lldivGreater sizeY sizeof_char in
    let asy := quot d in
    if negb (calloc_origin_ok a) then Ret None
    else
      match allocRows a (Z.to_nat asx) 0 asy with
      | None => Ret None
      | Some rows =>
          Ret (Some {| origin := rows; gridSizeX := sizeX; gridSizeY := sizeY;
                       arraySizeX := asx; arraySizeY := asy;
                       outOfBoundsRule := rule |})
      end.

(** ** Grid: getter and setter *)

(** The recursion of [selsectCell] under the torus rule is bounded by
    [fuel]: [Diverges] is returned when [fuel] recursive calls were not
    enough. *)
Fixpoint selsectCell (fuel : nat) (g : Grid) (x y : Z) {struct fuel} : outcome CellIndex :=
  if (x >=? 0) && (y >=? 0) && (x <? gridSizeX g) && (y <? gridSizeY g) then
    let i := Z.to_nat x in
    let! division := lldiv y sizeof_char in
    let j := Z.to_nat (quot division) in
    match origin g !! i with
    | None => Undefined
    | Some _ =>
        Ret {| storageCharPtr := Some (i, j);
               bitIndex := char_of_int (rem division) |}
    end
  else if outOfBoundsRule g =? GOL__OOBR__TORUS then
    let! px := lldivPositive x (gridSizeX g) in
    let! py := lldivPositive y (gridSizeY g) in
    match fuel with
    | O => Diverges
    | S fuel' => selsectCell fuel' g (rem px) (rem py)
    end
  else
    Ret {| storageCharPtr := None; bitIndex := char_of_int sizeof_char |}.

(** [*p] for a [char *] into the grid. *)
Definition loadChar (g : Grid) (p : nat * nat) : outcome Z :=
  match origin g !! p.1 with
  | None => Undefined
  | Some row =>
      match row !! p.2 with
      | None => Undefined
      | Some c => Ret c
      end
  end.

Definition withOrigin (g : Grid) (o : list (list Z)) : Grid :=
  {| origin := o; gridSizeX := gridSizeX g; gridSizeY := gridSizeY g;
     arraySizeX := arraySizeX g; arraySizeY := arraySizeY g;
     outOfBoundsRule := outOfBoundsRule g |}.

(** [*p = c]. *)
Definition storeChar (g : Grid) (p : nat * nat) (c : Z) : outcome Grid :=
  match origin g !! p.1 with
  | None => Undefined
  | Some row =>
      if decide (p.2 < length row)%nat
      then Ret (withOrigin g (<[p.1 := <[p.2 := c]> row]> (origin g)))
      else Undefined
  end.

(** C truth values. *)
Definition truth (z : Z) : bool := negb (z =? 0).
Definition c_bool (b : bool) : Z := if b then 1 else 0.

Definition getCell (fuel : nat) (g : Grid) (x y : Z) : outcome Z :=
  let! targetIndex := selsectCell fuel g x y in
  match storageCharPtr targetIndex with
  | None =>
      if negb (bitIndex targetIndex =? char_of_int sizeof_char) then
        Ret GOL__CELL_STATE__INVALID
      else if outOfBoundsRule g =? GOL__OOBR__ALL_OFF then Ret GOL__CELL_STATE__OFF
      else if outOfBoundsRule g =? GOL__CELL_STATE__ON then Ret GOL__CELL_STATE__ON
      else Ret GOL__CELL_STATE__INVALID
  | Some p =>
      let! c := loadChar g p in
      if c_bool (truth c && truth (char_of_int (Z.shiftl 1 (bitIndex targetIndex)))) =? 0
      then Ret GOL__CELL_STATE__OFF
      else Ret GOL__CELL_STATE__ON
  end.

(** [setCell] returns the grid after the call and the error code. *)
Definition setCell (fuel : nat) (g : Grid) (x y : Z) (newState : Z) : outcome (Grid * Z) :=
  let! targetIndex := selsectCell fuel g x y in
  if bitIndex targetIndex =? char_of_int sizeof_char then Ret (g, 1)
  else if newState =? GOL__CELL_STATE__OFF then
    match storageCharPtr targetIndex with
    | None => Undefined
    | Some p =>
        let! c := loadChar g p in
        let mask := c_bool (negb (truth (char_of_int (Z.shiftl 1 (bitIndex targetIndex))))) in
        let! g' := storeChar g p (char_of_int (Z.land c mask)) in
        Ret (g', 0)
    end
  else if newState =? GOL__CELL_STATE__ON then
    match storageCharPtr targetIndex with
    | None => Undefined
    | Some p =>
        let! c := loadChar g p in
        let mask := char_of_int (Z.shiftl 1 (bitIndex targetIndex)) in
        let! g' := storeChar g p (char_of_int (Z.lor c mask)) in
        Ret (g', 0)
    end
  else Ret (g, 2).

(** ** Loops *)

(** [for ( long long i = lo; i < hi; ++i ) body]: [n] iterations from [i]. *)
Fixpoint forLoop {St : Type} (n : nat) (i : Z) (body : Z -> St -> outcome St) (s : St) : outcome St :=
  match n with
  | O => Ret s
  | S n' => let! s' := body i s in forLoop n' (i + 1) body s'
  end.

Definition forRange {St : Type} (lo hi : Z) (body : Z -> St -> outcome St) (s : St) : outcome St :=
  forLoop (Z.to_nat (hi - lo)) lo body s.

(** ** Grid: miscellaneous *)

(** [rand] is a stream of values, the state is the number of draws made. *)
Definition randomizeCell (fuel : nat) (rand : nat -> Z) (i j : Z) (s : Grid * nat) : outcome (Grid * nat) :=
  let r := rand s.2 in
  if truth (Z.rem r 2) then
    let! r' := setCell fuel s.1 i j GOL__CELL_STATE__OFF in Ret (r'.1, S s.2)
  else
    let! r' := setCell fuel s.1 i j GOL__CELL_STATE__ON in Ret (r'.1, S s.2).

Definition randomizeGrid (fuel : nat) (rand : nat -> Z) (s : Grid * nat) : outcome (Grid * nat) :=
  let sizeX := gridSizeX s.1 in
  let sizeY := gridSizeY s.1 in
  forRange 0 sizeX (fun i s1 => forRange 0 sizeY (fun j s2 => randomizeCell fuel rand i j s2) s1) s.

(** ** Game *)

Definition createGame (game_malloc_ok : bool) (aA aB : Allocator)
    (sizeX sizeY : Z) (rule : Z) : outcome (option Game) :=
  if negb game_malloc_ok then Ret None
  else
    let! ga := createGrid aA sizeX sizeY rule in
    match ga with
    | None => Ret None
    | Some gA =>
        let! gb := createGrid aB sizeX sizeY rule in
        match gb with
        | None => Ret None
        | Some gB => Ret (Some {| gridA := gA; gridB := gB; currentGridPtr := PtrGridA |})
        end
    end.

(** The body of the two loops of [iterateGame] for the cell [(i, j)]. *)
Definition iterateCell (fuel : nat) (src : Grid) (i j : Z) (trg : Grid) : outcome Grid :=
  let! n1 := getCell fuel src (i - 1) (j - 1) in
  let! n2 := getCell fuel src (i - 1) j in
  let! n3 := getCell fuel src (i - 1) (j + 1) in
  let! n4 := getCell fuel src i (j - 1) in
  let! n5 := getCell fuel src i (j + 1) in
  let! n6 := getCell fuel src (i + 1) (j - 1) in
  let! n7 := getCell fuel src (i + 1) j in
  let! n8 := getCell fuel src (i + 1) (j + 1) in
  let neighbors := char_of_int (0 + (n1 + n2 + n3 + n4 + n5 + n6 + n7 + n8)) in
  let! c := getCell fuel src i j in
  if c =? GOL__CELL_STATE__OFF then
    if neighbors =? 3 then
      let! r := setCell fuel trg i j GOL__CELL_STATE__ON in Ret r.1
    else
      let! r := setCell fuel trg i j GOL__CELL_STATE__OFF in Ret r.1
  else
    if (neighbors <? 2) || (neighbors >? 3) then
      let! r := setCell fuel trg i j GOL__CELL_STATE__OFF in Ret r.1
    else
      let! r := setCell fuel trg i j GOL__CELL_STATE__ON in Ret r.1.

Definition iterateGrid (fuel : nat) (src trg : Grid) : outcome Grid :=
  let sizeX := gridSizeX src in
  let sizeY := gridSizeY src in
  forRange 0 sizeX (fun i t1 => forRange 0 sizeY (fun j t2 => iterateCell fuel src i j t2) t1) trg.

Definition iterateGame (fuel : nat) (gm : Game) : outcome Game :=
  match currentGridPtr gm with
  | PtrGridA =>
      let! trg := iterateGrid fuel (gridA gm) (gridB gm) in
      Ret {| gridA := gridA gm; gridB := trg; currentGridPtr := PtrGridB |}
  | PtrGridB =>
      let! trg := iterateGrid fuel (gridB gm) (gridA gm) in
      Ret {| gridA := trg; gridB := gridB gm; currentGridPtr := PtrGridA |}
  | PtrOther => Ret gm
  end.

(** [*(gamePtr->currentGridPtr)] and the other grid of the pair. *)
Definition currentGrid (gm : Game) : Grid :=
  match currentGridPtr gm with
  | PtrGridB => gridB gm
  | _ => gridA gm
  end.

Definition otherGrid (gm : Game) : Grid :=
  match currentGridPtr gm with
  | PtrGridB => gridA gm
  | _ => gridB gm
  end.

Definition withCurrentGrid (gm : Game) (g : Grid) : Game :=
  match currentGridPtr gm with
  | PtrGridB => {| gridA := gridA gm; gridB := g; currentGridPtr := PtrGridB |}
  | p => {| gridA := g; gridB := gridB gm; currentGridPtr := p |}
  end.

Definition randomizeGame (fuel : nat) (rand : nat -> Z) (s : Game * nat) : outcome (Game * nat) :=
  let! r := randomizeGrid fuel rand (currentGrid s.1, s.2) in
  Ret (withCurrentGrid s.1 r.1, r.2).

(** ** Shapes, cells and the rule of the automaton *)

Definition inBounds (g : Grid) (x y : Z) : Prop :=
  (0 <= x < gridSizeX g) /\ (0 <= y < gridSizeY g).

(** The storage of a grid as [createGrid] lays it out: [gridSizeX] rows of
    [gridSizeY] chars. *)
Definition wfGrid (g : Grid) : Prop :=
  0 <= gridSizeX g /\ 0 <= gridSizeY g /\
  length (origin g) = Z.to_nat (gridSizeX g) /\
  Forall (fun row => length row = Z.to_nat (gridSizeY g)) (origin g).

Definition validRule (r : Z) : Prop :=
  r = GOL__OOBR__ALL_OFF \/ r = GOL__OOBR__ALL_ON \/ r = GOL__OOBR__TORUS.

Definition sameShape (g1 g2 : Grid) : Prop :=
  gridSizeX g1 = gridSizeX g2 /\ gridSizeY g1 = gridSizeY g2 /\
  outOfBoundsRule g1 = outOfBoundsRule g2.

Definition wfGame (gm : Game) : Prop :=
  wfGrid (gridA gm) /\ wfGrid (gridB gm) /\
  sameShape (gridA gm) (gridB gm) /\
  validRule (outOfBoundsRule (gridA gm)).

(** The char that stores the cell [(x, y)]. *)
Definition cellByte (g : Grid) (x y : Z) : option Z :=
  match origin g !! Z.to_nat x with
  | Some row => row !! Z.to_nat y
  | None => None
  end.

(** Every char of the storage is 0 or 1. *)
Definition bytes01 (g : Grid) : Prop :=
  Forall (Forall (fun c => c = 0 \/ c = 1)) (origin g).

(** The eight cells around [(x, y)], in the order [iterateGame] reads them. *)
Definition neighbourhood (x y : Z) : list (Z * Z) :=
  [ (x - 1, y - 1); (x - 1, y); (x - 1, y + 1);
    (x, y - 1); (x, y + 1);
    (x + 1, y - 1); (x + 1, y); (x + 1, y + 1) ].

Definition isOn (fuel : nat) (g : Grid) (p : Z * Z) : bool :=
  match getCell fuel g p.1 p.2 with
  | Ret s => s =? GOL__CELL_STATE__ON
  | _ => false
  end.

(** Number of neighbours that [getCell] reads as On. *)
Definition onNeighbours (fuel : nat) (g : Grid) (x y : Z) : nat :=
  length (List.filter (isOn fuel g) (neighbourhood x y)).

(** The rule B3/S23 on cell states. *)
Definition b3s23 (state : Z) (n : nat) : Z :=
  if state =? GOL__CELL_STATE__OFF then
    if (n =? 3)%nat then GOL__CELL_STATE__ON else GOL__CELL_STATE__OFF
  else
    if ((n =? 2)%nat || (n =? 3)%nat) then GOL__CELL_STATE__ON else GOL__CELL_STATE__OFF.

(** The bit-packed layout the header comment of the program describes
    ("Each bit represents a single cell"): [CHAR_BIT] cells per char along
    the y axis. *)
Definition packed_wordIndex (y : Z) : Z := y / CHAR_BIT.
Definition packed_bitOffset (y : Z) : Z := y mod CHAR_BIT.
Definition packed_rowLength (sizeY : Z) : Z := (sizeY + CHAR_BIT - 1) / CHAR_BIT.

(** An allocator whose calls all succeed. *)
Definition allocAll : Allocator :=
  {| malloc_ok := true; calloc_origin_ok := true; calloc_row_ok := fun _ => true |}.

(** [setCell] for callers that ignore the error code, as the demos and the
    loops of the program do. *)
Definition setCell_ (fuel : nat) (g : Grid) (x y : Z) (newState : Z) : outcome Grid :=
  let! r := setCell fuel g x y newState in Ret r.1.

(** The grid after the char of the cell [(x, y)] is overwritten with [v]. *)
Definition putByte (g : Grid) (x y : Z) (v : Z) : Grid :=
  match origin g !! Z.to_nat x with
  | Some row => withOrigin g (<[Z.to_nat x := <[Z.to_nat y := v]> row]> (origin g))
  | None => g
  end.

(** The cell state [getCell] derives from a storage char. *)
Definition stateOfByte (c : Z) : Z :=
  if c =? 0 then GOL__CELL_STATE__OFF else GOL__CELL_STATE__ON.

(** The state the rule gives the cell [(x, y)] in the next generation, from
    the reads of the source grid. *)
Definition nextState (fuel : nat) (src : Grid) (x y : Z) : Z :=
  match getCell fuel src x y with
  | Ret c => b3s23 c (onNeighbours fuel src x y)
  | _ => GOL__CELL_STATE__INVALID
  end.

(** A pattern is a set of cells given by its membership test;
    [patternNeighbours] counts the neighbours of [(x, y)] in the pattern. *)
Definition patternNeighbours (P : Z -> Z -> bool) (x y : Z) : nat :=
  length (List.filter (fun p : Z * Z => P p.1 p.2) (neighbourhood x y)).

(** The two phases of the blinker: (1,0), (1,1), (1,2) and (0,1), (1,1),
    (2,1). *)
Definition blinkerA : list (Z * Z) := [ (1, 0); (1, 1); (1, 2) ].
Definition blinkerB : list (Z * Z) := [ (0, 1); (1, 1); (2, 1) ].

Definition inBlinkerA (x y : Z) : bool := (x =? 1) && (0 <=? y) && (y <=? 2).
Definition inBlinkerB (x y : Z) : bool := (y =? 1) && (0 <=? x) && (x <=? 2).

(** What every operation of the program keeps of a grid: its sizes and
    rule, its layout, and that its chars are 0 or 1. *)
Definition keepsGrid (g g' : Grid) : Prop :=
  sameShape g g' /\ (wfGrid g -> wfGrid g') /\ (bytes01 g -> bytes01 g').

(** ** Grids and games reachable through the operations of the program *)

Inductive reachableGame (fuel : nat) : Game -> Prop :=
| reach_createGame ok aA aB sizeX sizeY rule gm :
    createGame ok aA aB sizeX sizeY rule = Ret (Some gm) ->
    reachableGame fuel gm
| reach_iterateGame gm gm' :
    reachableGame fuel gm ->
    iterateGame fuel gm = Ret gm' ->
    reachableGame fuel gm'
| reach_randomizeGame gm rand k gm' k' :
    reachableGame fuel gm ->
    randomizeGame fuel rand (gm, k) = Ret (gm', k') ->
    reachableGame fuel gm'
| reach_setCurrent gm x y newState g' err :
    reachableGame fuel gm ->
    setCell fuel (currentGrid gm) x y newState = Ret (g', err) ->
    reachableGame fuel (withCurrentGrid gm g').

Inductive reachableGrid (fuel : nat) : Grid -> Prop :=
| reach_createGrid a sizeX sizeY rule g :
    createGrid a sizeX sizeY rule = Ret (Some g) ->
    reachableGrid fuel g
| reach_setCell g x y newState g' err :
    reachableGrid fuel g ->
    setCell fuel g x y newState = Ret (g', err) ->
    reachableGrid fuel g'
| reach_randomizeGrid g rand k g' k' :
    reachableGrid fuel g ->
    randomizeGrid fuel rand (g, k) = Ret (g', k') ->
    reachableGrid fuel g'
| reach_gridA gm :
    reachableGame fuel gm -> reachableGrid fuel (gridA gm)
| reach_gridB gm :
    reachableGame fuel gm -> reachableGrid fuel (gridB gm).

(** ** Sample grids and games *)

(** The grid [createGrid] returns when every allocation succeeds. *)
Definition emptyGrid (sizeX sizeY rule : Z) : Grid :=
  {| origin := replicate (Z.to_nat sizeX) (replicate (Z.to_nat sizeY) 0);
     gridSizeX := sizeX; gridSizeY := sizeY;
     arraySizeX := sizeX; arraySizeY := sizeY;
     outOfBoundsRule := rule |}.

Definition emptyGame (sizeX sizeY rule : Z) : Game :=
  {| gridA := emptyGrid sizeX sizeY rule;
     gridB := emptyGrid sizeX sizeY rule;
     currentGridPtr := PtrGridA |}.

(** A 5 by 5 game without torus whose current grid holds the row blinker
    (1,0), (1,1), (1,2). *)
Definition blinkerGrid : Grid :=
  {| origin := [ [0; 0; 0; 0; 0]; [1; 1; 1; 0; 0]; [0; 0; 0; 0; 0];
                 [0; 0; 0; 0; 0]; [0; 0; 0; 0; 0] ];
     gridSizeX := 5; gridSizeY := 5; arraySizeX := 5; arraySizeY := 5;
     outOfBoundsRule := GOL__OOBR__ALL_OFF |}.

(** Further created grids and games used as concrete inputs. *)
Definition grid12 : Grid := emptyGrid 1 2 GOL__OOBR__ALL_OFF.
Definition torusGrid22 : Grid := emptyGrid 2 2 GOL__OOBR__TORUS.
Definition allOnGame33 : Game := emptyGame 3 3 GOL__OOBR__ALL_ON.
Definition torusGame33 : Game := emptyGame 3 3 GOL__OOBR__TORUS.

Definition blinkerGame : Game :=
  {| gridA := blinkerGrid;
     gridB := emptyGrid 5 5 GOL__OOBR__ALL_OFF;
     currentGridPtr := PtrGridA |}.

(** ** Grid: print *)

Record PrintOptions : Type := { signForOff : Z; signForOn : Z }.

(** [stdout] is the list of the characters written so far; [putc] appends
    one. *)
Definition putc (c : Z) (out : list Z) : list Z := out ++ [c].

Definition newline : Z := 10.

(** Conversion of an integer to [size_t] (64 bits). *)
Definition size_t_of (z : Z) : Z := z mod 2 ^ 64.

Definition printAllInChar (storageChar : Z) (options : PrintOptions) (out : list Z) : outcome (list Z) :=
  let sizeOfChar := char_of_int sizeof_char in
  forRange 0 sizeOfChar
    (fun bitIndex o =>
       if truth storageChar && truth (Z.shiftl 1 bitIndex)
       then Ret (putc (signForOn options) o)
       else Ret (putc (signForOff options) o))
    out.

(** [printOneInChar] returns the output and the error code. *)
Definition printOneInChar (storageChar bitIndex : Z) (options : PrintOptions) (out : list Z) : list Z * Z :=
  if size_t_of bitIndex >=? sizeof_char then (out, 1)
  else if truth storageChar && truth (Z.shiftl 1 bitIndex)
       then (putc (signForOff options) out, 0)
       else (putc (signForOn options) out, 0).

Definition printRow (g : Grid) (rowIndex : Z) (options : PrintOptions) (out : list Z) : outcome (list Z) :=
  match origin g !! Z.to_nat rowIndex with
  | None => Undefined
  | Some rowOrigin =>
      let! division := lldiv (gridSizeY g) sizeof_char in
      let quotient := size_t_of (quot division) in
      let remainder := char_of_int (rem division) in
      let! o1 := forRange 0 quotient
                   (fun j o =>
                      match rowOrigin !! Z.to_nat j with
                      | None => Undefined
                      | Some c => printAllInChar c options o
                      end) out in
      let! o2 := forRange 0 remainder
                   (fun bitIndex o =>
                      match rowOrigin !! Z.to_nat quotient with
                      | None => Undefined
                      | Some c => Ret (printOneInChar c bitIndex options o).1
                      end) o1 in
      Ret (putc newline o2)
  end.

Definition printGrid (g : Grid) (options : PrintOptions) (out : list Z) : outcome (list Z) :=
  let o0 := putc newline out in
  let! o1 := forRange 0 (arraySizeX g) (fun i o => printRow g i options o) o0 in
  Ret (putc newline o1).

Definition printGame (gm : Game) (options : PrintOptions) (out : list Z) : outcome (list Z) :=
  match currentGridPtr gm with
  | PtrGridA => printGrid (gridA gm) options out
  | PtrGridB => printGrid (gridB gm) options out
  | PtrOther => Undefined
  end.

(** One iteration of the endless loop of [printAndIterateGameLoop]: the
    game is printed, then stepped ([fflush], [Sleep] and [clearCmd] write no
    character of their own to [stdout]). *)
Definition loopRound (fuel : nat) (options : PrintOptions) (s : Game * list Z) : outcome (Game * list Z) :=
  let! o := printGame s.1 options s.2 in
  let! gm := iterateGame fuel s.1 in
  Ret (gm, o).

(** The first [n] iterations of that loop. *)
Fixpoint loopRounds (fuel : nat) (options : PrintOptions) (n : nat) (s : Game * list Z) : outcome (Game * list Z) :=
  match n with
  | O => Ret s
  | S n' => let! s' := loopRound fuel options s in loopRounds fuel options n' s'
  end.

(** The sign [printAllInChar] prints for a storage char. *)
Definition signOfByte (options : PrintOptions) (c : Z) : Z :=
  if c =? 0 then signForOff options else signForOn options.

(** The sign of a cell state. *)
Definition signOfState (options : PrintOptions) (state : Z) : Z :=
  if state =? GOL__CELL_STATE__OFF then signForOff options else signForOn options.

(** The sign of the cell [(x, y)] as [getCell] reads it. *)
Definition cellSign (fuel : nat) (options : PrintOptions) (g : Grid) (x y : Z) : Z :=
  match getCell fuel g x y with
  | Ret state => signOfState options state
  | _ => 0
  end.

(** ** Writes as functions on grids *)

(** The char [setCell] stores over a char [c] for a new state, if any. *)
Definition writtenByte (newState c : Z) : option Z :=
  if newState =? GOL__CELL_STATE__OFF then Some 0
  else if newState =? GOL__CELL_STATE__ON then Some (char_of_int (Z.lor c 1))
  else None.

Definition putOpt (g : Grid) (x y : Z) (v : option Z) : Grid :=
  match v with
  | Some c => putByte g x y c
  | None => g
  end.

(** The state [randomizeGrid] gives a cell from a value of [rand]. *)
Definition stateOfDraw (r : Z) : Z :=
  if truth (Z.rem r 2) then GOL__CELL_STATE__OFF else GOL__CELL_STATE__ON.

(** A 2 by 2 block with its corner of least coordinates at [(a, b)]. *)
Definition inBlock (a b x y : Z) : bool :=
  (a <=? x) && (x <=? a + 1) && (b <=? y) && (y <=? b + 1).

(** The game after a step when the loops run no iteration. *)
Definition flipCurrent (gm : Game) : Game :=
  match currentGridPtr gm with
  | PtrGridA => {| gridA := gridA gm; gridB := gridB gm; currentGridPtr := PtrGridB |}
  | PtrGridB => {| gridA := gridA gm; gridB := gridB gm; currentGridPtr := PtrGridA |}
  | PtrOther => gm
  end.

(** A 4 by 4 game without torus whose current grid holds the block
    (1,1), (1,2), (2,1), (2,2). *)
Definition blockGrid : Grid :=
  {| origin := [ [0; 0; 0; 0]; [0; 1; 1; 0]; [0; 1; 1; 0]; [0; 0; 0; 0] ];
     gridSizeX := 4; gridSizeY := 4; arraySizeX := 4; arraySizeY := 4;
     outOfBoundsRule := GOL__OOBR__ALL_OFF |}.

Definition blockGame : Game :=
  {| gridA := blockGrid;
     gridB := emptyGrid 4 4 GOL__OOBR__ALL_OFF;
     currentGridPtr := PtrGridA |}.

(** * Properties *)

(** ** Arithmetic of the modulo functions and of [char] *)

Lemma lldiv_sizeof_char (y : Z) :
  lldiv y sizeof_char = Ret {| quot := y; rem := 0 |}.
Proof.
  unfold lldiv, sizeof_char.
  change (1 =? 0) with false. change (1 =? -1) with false.
  rewrite andb_false_r. cbv iota.
  by rewrite Z.quot_1_r, Z.rem_1_r.
Qed.

Lemma lldiv_pos (x d : Z) :
  0 < d -> lldiv x d = Ret {| quot := Z.quot x d; rem := Z.rem x d |}.
Proof.
  intros Hd. unfold lldiv.
  destruct (Z.eqb_spec d 0) as [->|_]; [lia|].
  destruct (Z.eqb_spec d (-1)) as [->|_]; [lia|].
  by rewrite andb_false_r.
Qed.

Lemma lldiv_zero (x : Z) : lldiv x 0 = Undefined.
Proof. reflexivity. Qed.

(** For a positive divisor [lldivPositive] is floor division: the
    remainder is the nonnegative one. *)
Lemma lldivPositive_pos (x d : Z) :
  0 < d -> lldivPositive x d = Ret {| quot := x / d; rem := x mod d |}.
Proof.
  intros Hd. unfold lldivPositive. rewrite lldiv_pos by done. simpl.
  pose proof (Z.quot_rem' x d) as Hqr.
  pose proof (Z.rem_bound_abs x d ltac:(lia)) as Habs.
  destruct (Z.geb_spec (Z.rem x d) 0) as [Hge|Hlt].
  - f_equal.
    rewrite (Z.div_unique_pos x d (Z.quot x d) (Z.rem x d)) by lia.
    rewrite (Z.mod_unique_pos x d (Z.quot x d) (Z.rem x d)) by lia.
    done.
  - f_equal.
    rewrite (Z.div_unique_pos x d (Z.quot x d - 1) (Z.rem x d + d)) by lia.
    rewrite (Z.mod_unique_pos x d (Z.quot x d - 1) (Z.rem x d + d)) by lia.
    done.
Qed.

Lemma lldivPositive_zero (x : Z) : lldivPositive x 0 = Undefined.
Proof. reflexivity. Qed.

Lemma lldivPositive_cases (x d : Z) :
  (exists r, lldivPositive x d = Ret r) \/ lldivPositive x d = Undefined.
Proof.
  unfold lldivPositive, lldiv.
  destruct (d =? 0); [by right|].
  destruct ((x =? LLONG_MIN) && (d =? -1)); [by right|]. simpl.
  destruct (Z.rem x d >=? 0); left; eauto.
Qed.

(** Quotient and remainder of [lldivPositive] are [long long] values when
    the arguments are. *)
Lemma lldivPositive_in_llong (x d : Z) :
  in_llong x -> 0 < d -> in_llong (x / d) /\ 0 <= x mod d < d.
Proof.
  unfold in_llong, LLONG_MIN, LLONG_MAX. intros Hx Hd.
  pose proof (Z.mod_pos_bound x d Hd).
  split; [|done].
  split.
  - apply Z.div_le_lower_bound; [done|]. nia.
  - apply Z.div_le_upper_bound; [done|]. nia.
Qed.

Lemma char_of_int_small (z : Z) : -128 <= z < 128 -> char_of_int z = z.
Proof.
  intros H. unfold char_of_int.
  rewrite Z.mod_small by lia. lia.
Qed.

Lemma char_of_int_odd (z : Z) : Z.odd z = true -> char_of_int z <> 0.
Proof.
  unfold char_of_int. intros Hodd Hz.
  assert (Hm : (z + 128) mod 256 = 128) by lia.
  pose proof (Z.div_mod (z + 128) 256 ltac:(lia)) as Hdm.
  rewrite Hm in Hdm.
  assert (z = 2 * (128 * ((z + 128) / 256))) as Hev by lia.
  rewrite Hev, Z.odd_mul in Hodd. done.
Qed.

Lemma lor_one_odd (c : Z) : Z.odd (Z.lor c 1) = true.
Proof.
  rewrite <- Z.bit0_odd, Z.lor_spec.
  change (Z.testbit 1 0) with true. apply orb_true_r.
Qed.

(** ** Storage of a well-formed grid *)

Lemma cellByte_inBounds (g : Grid) (x y : Z) :
  wfGrid g -> inBounds g x y ->
  exists row c, origin g !! Z.to_nat x = Some row /\ row !! Z.to_nat y = Some c /\
                length row = Z.to_nat (gridSizeY g) /\ cellByte g x y = Some c.
Proof.
  intros (HX & HY & Hlen & Hrows) [Hx Hy].
  destruct (lookup_lt_is_Some_2 (origin g) (Z.to_nat x)) as [row Hrow]; [lia|].
  pose proof (proj1 (Forall_lookup _ _) Hrows _ _ Hrow) as Hrl. simpl in Hrl.
  destruct (lookup_lt_is_Some_2 row (Z.to_nat y)) as [c Hc]; [lia|].
  exists row, c. unfold cellByte. rewrite Hrow. done.
Qed.

Lemma putByte_shape (g : Grid) (x y v : Z) :
  gridSizeX (putByte g x y v) = gridSizeX g /\
  gridSizeY (putByte g x y v) = gridSizeY g /\
  outOfBoundsRule (putByte g x y v) = outOfBoundsRule g.
Proof. unfold putByte. by destruct (origin g !! Z.to_nat x). Qed.

Lemma putByte_wf (g : Grid) (x y v : Z) : wfGrid g -> wfGrid (putByte g x y v).
Proof.
  intros (HX & HY & Hlen & Hrows). unfold putByte.
  destruct (origin g !! Z.to_nat x) as [row|] eqn:Hrow; [|done].
  unfold wfGrid; simpl. repeat split; try done.
  - by rewrite length_insert.
  - apply Forall_insert; [done|].
    rewrite length_insert. exact (proj1 (Forall_lookup _ _) Hrows _ _ Hrow).
Qed.

Lemma cellByte_putByte_same (g : Grid) (x y v : Z) :
  wfGrid g -> inBounds g x y -> cellByte (putByte g x y v) x y = Some v.
Proof.
  intros Hwf Hin.
  destruct (cellByte_inBounds g x y Hwf Hin) as (row & c & Hrow & Hc & Hrl & _).
  unfold putByte, cellByte. rewrite Hrow. simpl.
  rewrite list_lookup_insert_eq by (eapply lookup_lt_Some; eauto).
  rewrite list_lookup_insert_eq by (eapply lookup_lt_Some; eauto).
  done.
Qed.

Lemma cellByte_putByte_other (g : Grid) (x y v x' y' : Z) :
  0 <= x -> 0 <= y -> 0 <= x' -> 0 <= y' -> (x', y') <> (x, y) ->
  cellByte (putByte g x y v) x' y' = cellByte g x' y'.
Proof.
  intros Hx Hy Hx' Hy' Hne. unfold putByte, cellByte.
  destruct (origin g !! Z.to_nat x) as [row|] eqn:Hrow; [|done]. simpl.
  destruct (decide (x' = x)) as [->|Hxx].
  - rewrite Hrow.
    rewrite list_lookup_insert_eq by (eapply lookup_lt_Some; eauto).
    apply list_lookup_insert_ne. intros Heq. apply Hne. f_equal. lia.
  - rewrite list_lookup_insert_ne by lia. done.
Qed.

Lemma putByte_bytes01 (g : Grid) (x y v : Z) :
  bytes01 g -> v = 0 \/ v = 1 -> bytes01 (putByte g x y v).
Proof.
  unfold bytes01, putByte. intros Hb Hv.
  destruct (origin g !! Z.to_nat x) as [row|] eqn:Hrow; [|done]. simpl.
  apply Forall_insert; [done|].
  apply Forall_insert; [|done].
  exact (proj1 (Forall_lookup _ _) Hb _ _ Hrow).
Qed.

Lemma bytes01_cellByte (g : Grid) (x y c : Z) :
  bytes01 g -> cellByte g x y = Some c -> c = 0 \/ c = 1.
Proof.
  unfold bytes01, cellByte. intros Hb Hc.
  destruct (origin g !! Z.to_nat x) as [row|] eqn:Hrow; [|done].
  pose proof (proj1 (Forall_lookup _ _) Hb _ _ Hrow) as Hr.
  exact (proj1 (Forall_lookup _ _) Hr _ _ Hc).
Qed.

(** ** [selsectCell] *)

Lemma inBounds_test_true (g : Grid) (x y : Z) :
  inBounds g x y ->
  (x >=? 0) && (y >=? 0) && (x <? gridSizeX g) && (y <? gridSizeY g) = true.
Proof.
  intros [Hx Hy].
  destruct (Z.geb_spec x 0), (Z.geb_spec y 0),
    (Z.ltb_spec x (gridSizeX g)), (Z.ltb_spec y (gridSizeY g)); simpl; lia.
Qed.

Lemma inBounds_test_false (g : Grid) (x y : Z) :
  ~ inBounds g x y ->
  (x >=? 0) && (y >=? 0) && (x <? gridSizeX g) && (y <? gridSizeY g) = false.
Proof.
  unfold inBounds. intros Hn.
  destruct (Z.geb_spec x 0), (Z.geb_spec y 0),
    (Z.ltb_spec x (gridSizeX g)), (Z.ltb_spec y (gridSizeY g)); simpl; try done.
  exfalso. apply Hn. lia.
Qed.

Lemma inBounds_dec (g : Grid) (x y : Z) : {inBounds g x y} + {~ inBounds g x y}.
Proof.
  unfold inBounds.
  destruct (decide (0 <= x < gridSizeX g)); destruct (decide (0 <= y < gridSizeY g));
    (left; done) || (right; tauto).
Qed.

Lemma selsectCell_unfold (fuel : nat) (g : Grid) (x y : Z) :
  selsectCell fuel g x y =
  if (x >=? 0) && (y >=? 0) && (x <? gridSizeX g) && (y <? gridSizeY g) then
    let! division := lldiv y sizeof_char in
    match origin g !! Z.to_nat x with
    | None => Undefined
    | Some _ =>
        Ret {| storageCharPtr := Some (Z.to_nat x, Z.to_nat (quot division));
               bitIndex := char_of_int (rem division) |}
    end
  else if outOfBoundsRule g =? GOL__OOBR__TORUS then
    let! px := lldivPositive x (gridSizeX g) in
    let! py := lldivPositive y (gridSizeY g) in
    match fuel with
    | O => Diverges
    | S fuel' => selsectCell fuel' g (rem px) (rem py)
    end
  else
    Ret {| storageCharPtr := None; bitIndex := char_of_int sizeof_char |}.
Proof. destruct fuel; reflexivity. Qed.

(** An in-bounds cell is stored in the char [origin[x][y]], bit index 0. *)
Lemma selsectCell_inBounds (fuel : nat) (g : Grid) (x y : Z) :
  wfGrid g -> inBounds g x y ->
  selsectCell fuel g x y =
  Ret {| storageCharPtr := Some (Z.to_nat x, Z.to_nat y); bitIndex := 0 |}.
Proof.
  intros Hwf Hin.
  destruct (cellByte_inBounds g x y Hwf Hin) as (row & c & Hrow & _).
  rewrite selsectCell_unfold, inBounds_test_true by done.
  rewrite lldiv_sizeof_char. simpl. by rewrite Hrow.
Qed.

(** Outside the grid, without the torus rule, no cell is selected. *)
Lemma selsectCell_outside (fuel : nat) (g : Grid) (x y : Z) :
  ~ inBounds g x y -> outOfBoundsRule g <> GOL__OOBR__TORUS ->
  selsectCell fuel g x y = Ret {| storageCharPtr := None; bitIndex := 1 |}.
Proof.
  intros Hout Hrule.
  rewrite selsectCell_unfold, inBounds_test_false by done.
  destruct (Z.eqb_spec (outOfBoundsRule g) GOL__OOBR__TORUS); done.
Qed.

(** Under the torus rule on a grid with cells, one recursive call selects
    the cell at the coordinates reduced to their nonnegative remainders. *)
Lemma selsectCell_torus (fuel : nat) (g : Grid) (x y : Z) :
  wfGrid g -> outOfBoundsRule g = GOL__OOBR__TORUS ->
  0 < gridSizeX g -> 0 < gridSizeY g ->
  inBounds g (x mod gridSizeX g) (y mod gridSizeY g) /\
  selsectCell (S fuel) g x y =
  Ret {| storageCharPtr := Some (Z.to_nat (x mod gridSizeX g), Z.to_nat (y mod gridSizeY g));
         bitIndex := 0 |}.
Proof.
  intros Hwf Hrule HX HY.
  assert (Hred : inBounds g (x mod gridSizeX g) (y mod gridSizeY g)).
  { split; apply Z.mod_pos_bound; done. }
  split; [done|].
  destruct (inBounds_dec g x y) as [Hin|Hout].
  - destruct Hin as [Hx Hy].
    rewrite (Z.mod_small x), (Z.mod_small y) by done.
    apply selsectCell_inBounds; done.
  - rewrite selsectCell_unfold, inBounds_test_false by done.
    rewrite Hrule. change (GOL__OOBR__TORUS =? GOL__OOBR__TORUS) with true.
    rewrite !lldivPositive_pos by done. simpl obind. cbv beta iota.
    apply selsectCell_inBounds; done.
Qed.

(** Whatever the grid, [selsectCell] returns either the null index with bit
    index [sizeof( char )], or the char of an in-bounds cell with bit
    index 0. *)
Lemma selsectCell_result (fuel : nat) (g : Grid) (x y : Z) (idx : CellIndex) :
  selsectCell fuel g x y = Ret idx ->
  (storageCharPtr idx = None /\ bitIndex idx = 1) \/
  (exists x' y', inBounds g x' y' /\
     storageCharPtr idx = Some (Z.to_nat x', Z.to_nat y') /\ bitIndex idx = 0).
Proof.
  revert x y. induction fuel as [|fuel IH]; intros x y; rewrite selsectCell_unfold.
  all: destruct (inBounds_dec g x y) as [Hin|Hout];
    [ rewrite inBounds_test_true by done; rewrite lldiv_sizeof_char; simpl;
      destruct (origin g !! Z.to_nat x); [|done];
      intros [= <-]; right; exists x, y; done
    | rewrite inBounds_test_false by done ].
  all: destruct (outOfBoundsRule g =? GOL__OOBR__TORUS);
    [ | intros [= <-]; left; done ].
  all: destruct (lldivPositive x (gridSizeX g)) as [px| |]; simpl; try done.
  all: destruct (lldivPositive y (gridSizeY g)) as [py| |]; simpl; try done.
  apply IH.
Qed.

(** X12. On a grid with nonnegative sizes one recursive call is enough: the
    result is the same with any larger budget, and it is never
    [Diverges]. *)
Lemma selsectCell_fuel (fuel : nat) (g : Grid) (x y : Z) :
  0 <= gridSizeX g -> 0 <= gridSizeY g ->
  selsectCell (S fuel) g x y = selsectCell 1 g x y /\
  selsectCell 1 g x y <> Diverges.
Proof.
  intros HX HY.
  assert (Hin : forall n a b, inBounds g a b ->
            selsectCell n g a b = selsectCell 0 g a b /\
            selsectCell 0 g a b <> Diverges).
  { intros n a b Hab. rewrite (selsectCell_unfold n), (selsectCell_unfold 0).
    rewrite inBounds_test_true by done. split; [done|].
    rewrite lldiv_sizeof_char. simpl. by destruct (origin g !! Z.to_nat a). }
  rewrite (selsectCell_unfold (S fuel)), (selsectCell_unfold 1).
  destruct ((x >=? 0) && (y >=? 0) && (x <? gridSizeX g) && (y <? gridSizeY g)).
  { split; [done|]. rewrite lldiv_sizeof_char. simpl.
    by destruct (origin g !! Z.to_nat x). }
  destruct (outOfBoundsRule g =? GOL__OOBR__TORUS); [|done].
  destruct (Z.eq_dec (gridSizeX g) 0) as [-> |HX0]; [done|].
  rewrite (lldivPositive_pos x) by lia. simpl.
  destruct (Z.eq_dec (gridSizeY g) 0) as [-> |HY0]; [done|].
  rewrite (lldivPositive_pos y) by lia. simpl.
  assert (Hred : inBounds g (x mod gridSizeX g) (y mod gridSizeY g)).
  { split; apply Z.mod_pos_bound; lia. }
  destruct (Hin fuel _ _ Hred) as [-> Hnd]. done.
Qed.

(** ** Loads and stores through a cell index *)

Lemma loadChar_cellByte (g : Grid) (x y : Z) :
  loadChar g (Z.to_nat x, Z.to_nat y) =
  match cellByte g x y with Some c => Ret c | None => Undefined end.
Proof.
  unfold loadChar, cellByte. simpl.
  destruct (origin g !! Z.to_nat x) as [row|]; [|done].
  by destruct (row !! Z.to_nat y).
Qed.

Lemma storeChar_putByte (g : Grid) (x y c v : Z) :
  cellByte g x y = Some c ->
  storeChar g (Z.to_nat x, Z.to_nat y) v = Ret (putByte g x y v).
Proof.
  unfold storeChar, cellByte, putByte. simpl.
  destruct (origin g !! Z.to_nat x) as [row|]; [|done].
  intros Hc. apply lookup_lt_Some in Hc.
  by case_decide.
Qed.

Lemma mask_bit0 : char_of_int (Z.shiftl 1 0) = 1.
Proof. reflexivity. Qed.

Lemma stateOfByte_cases (c : Z) :
  (c = 0 /\ stateOfByte c = GOL__CELL_STATE__OFF) \/
  (c <> 0 /\ stateOfByte c = GOL__CELL_STATE__ON).
Proof. unfold stateOfByte. destruct (Z.eqb_spec c 0); [left|right]; done. Qed.

(** ** [getCell] *)

(** The test [*storageCharPtr && (char)( 1 << bitIndex )] of [getCell], at
    bit index 0, is the test that the whole char is not zero. *)
Lemma getCell_at (fuel : nat) (g : Grid) (x y x' y' c : Z) :
  selsectCell fuel g x y =
    Ret {| storageCharPtr := Some (Z.to_nat x', Z.to_nat y'); bitIndex := 0 |} ->
  cellByte g x' y' = Some c ->
  getCell fuel g x y = Ret (stateOfByte c).
Proof.
  intros Hsel Hc. unfold getCell. rewrite Hsel. simpl.
  rewrite loadChar_cellByte, Hc. simpl. rewrite mask_bit0.
  unfold stateOfByte, truth. by destruct (Z.eqb_spec c 0).
Qed.

Lemma getCell_inBounds (fuel : nat) (g : Grid) (x y : Z) :
  wfGrid g -> inBounds g x y ->
  exists c, cellByte g x y = Some c /\ getCell fuel g x y = Ret (stateOfByte c).
Proof.
  intros Hwf Hin.
  destruct (cellByte_inBounds g x y Hwf Hin) as (row & c & _ & _ & _ & Hc).
  exists c. split; [done|].
  eapply getCell_at; [|done]. apply selsectCell_inBounds; done.
Qed.

Lemma getCell_outside_ALL_OFF (fuel : nat) (g : Grid) (x y : Z) :
  outOfBoundsRule g = GOL__OOBR__ALL_OFF -> ~ inBounds g x y ->
  getCell fuel g x y = Ret GOL__CELL_STATE__OFF.
Proof.
  intros Hrule Hout. unfold getCell.
  rewrite selsectCell_outside by (done || by rewrite Hrule).
  simpl. by rewrite Hrule.
Qed.

Lemma getCell_outside_ALL_ON (fuel : nat) (g : Grid) (x y : Z) :
  outOfBoundsRule g = GOL__OOBR__ALL_ON -> ~ inBounds g x y ->
  getCell fuel g x y = Ret GOL__CELL_STATE__ON.
Proof.
  intros Hrule Hout. unfold getCell.
  rewrite selsectCell_outside by (done || by rewrite Hrule).
  simpl. by rewrite Hrule.
Qed.

Lemma getCell_torus (fuel : nat) (g : Grid) (x y : Z) :
  wfGrid g -> outOfBoundsRule g = GOL__OOBR__TORUS ->
  0 < gridSizeX g -> 0 < gridSizeY g ->
  getCell (S fuel) g x y =
  getCell (S fuel) g (x mod gridSizeX g) (y mod gridSizeY g).
Proof.
  intros Hwf Hrule HX HY.
  destruct (selsectCell_torus fuel g x y Hwf Hrule HX HY) as [Hin Hsel].
  destruct (cellByte_inBounds g _ _ Hwf Hin) as (row & c & _ & _ & _ & Hc).
  rewrite (getCell_at _ _ _ _ _ _ _ Hsel Hc).
  symmetry. eapply getCell_at; [|exact Hc].
  apply selsectCell_inBounds; done.
Qed.

(** On a well-formed grid with one of the three rules, and with cells when
    the rule is the torus, every read returns Off or On. *)
Lemma getCell_defined (fuel : nat) (g : Grid) (x y : Z) :
  wfGrid g -> validRule (outOfBoundsRule g) ->
  (outOfBoundsRule g = GOL__OOBR__TORUS -> 0 < gridSizeX g /\ 0 < gridSizeY g) ->
  getCell (S fuel) g x y = Ret GOL__CELL_STATE__OFF \/
  getCell (S fuel) g x y = Ret GOL__CELL_STATE__ON.
Proof.
  intros Hwf Hrule Htorus.
  assert (Hinb : forall x y, inBounds g x y ->
            getCell (S fuel) g x y = Ret GOL__CELL_STATE__OFF \/
            getCell (S fuel) g x y = Ret GOL__CELL_STATE__ON).
  { intros x0 y0 Hin.
    destruct (getCell_inBounds (S fuel) g x0 y0 Hwf Hin) as (c & _ & ->).
    destruct (stateOfByte_cases c) as [[_ ->]|[_ ->]]; auto. }
  destruct (inBounds_dec g x y) as [Hin|Hout]; [by apply Hinb|].
  destruct Hrule as [Hr|[Hr|Hr]].
  - left. by apply getCell_outside_ALL_OFF.
  - right. by apply getCell_outside_ALL_ON.
  - destruct (Htorus Hr) as [HX HY].
    rewrite getCell_torus by done.
    apply Hinb. split; apply Z.mod_pos_bound; done.
Qed.

(** ** [setCell] *)

Lemma setCell_at (fuel : nat) (g : Grid) (x y x' y' c newState : Z) :
  selsectCell fuel g x y =
    Ret {| storageCharPtr := Some (Z.to_nat x', Z.to_nat y'); bitIndex := 0 |} ->
  cellByte g x' y' = Some c ->
  setCell fuel g x y newState =
  Ret (if newState =? GOL__CELL_STATE__OFF then (putByte g x' y' 0, 0)
       else if newState =? GOL__CELL_STATE__ON
            then (putByte g x' y' (char_of_int (Z.lor c 1)), 0)
            else (g, 2)).
Proof.
  intros Hsel Hc. unfold setCell. rewrite Hsel. simpl.
  destruct (newState =? GOL__CELL_STATE__OFF).
  - rewrite loadChar_cellByte, Hc. simpl.
    rewrite Z.land_0_r. change (char_of_int 0) with 0.
    by rewrite (storeChar_putByte _ _ _ c).
  - destruct (newState =? GOL__CELL_STATE__ON); [|done].
    rewrite loadChar_cellByte, Hc. unfold obind at 1. rewrite mask_bit0.
    by rewrite (storeChar_putByte _ _ _ c).
Qed.

Lemma setCell_inBounds (fuel : nat) (g : Grid) (x y newState : Z) :
  wfGrid g -> inBounds g x y ->
  exists c, cellByte g x y = Some c /\
  setCell fuel g x y newState =
  Ret (if newState =? GOL__CELL_STATE__OFF then (putByte g x y 0, 0)
       else if newState =? GOL__CELL_STATE__ON
            then (putByte g x y (char_of_int (Z.lor c 1)), 0)
            else (g, 2)).
Proof.
  intros Hwf Hin.
  destruct (cellByte_inBounds g x y Hwf Hin) as (row & c & _ & _ & _ & Hc).
  exists c. split; [done|].
  apply setCell_at; [|done]. apply selsectCell_inBounds; done.
Qed.

(** Every return of [setCell], on any grid: an error code and no write, or
    code 0 and one char of an in-bounds cell overwritten. *)
Lemma setCell_result (fuel : nat) (g : Grid) (x y newState : Z) (g' : Grid) (err : Z) :
  setCell fuel g x y newState = Ret (g', err) ->
  (g' = g /\ (err = 1 \/ err = 2)) \/
  (exists x' y' c, inBounds g x' y' /\ cellByte g x' y' = Some c /\ err = 0 /\
     ((newState = GOL__CELL_STATE__OFF /\ g' = putByte g x' y' 0) \/
      (newState = GOL__CELL_STATE__ON /\
       g' = putByte g x' y' (char_of_int (Z.lor c 1))))).
Proof.
  intros Hset.
  destruct (selsectCell fuel g x y) as [idx| |] eqn:Hsel;
    [|unfold setCell in Hset; rewrite Hsel in Hset; done..].
  destruct (selsectCell_result _ _ _ _ _ Hsel) as [[Hp Hb]|(x' & y' & Hin & Hp & Hb)].
  - unfold setCell in Hset. rewrite Hsel in Hset. simpl in Hset.
    rewrite Hb in Hset. simpl in Hset. injection Hset as <- <-. left; auto.
  - destruct idx as [p b]. simpl in Hp, Hb. subst p b.
    destruct (cellByte g x' y') as [c|] eqn:Hc.
    + rewrite (setCell_at _ _ _ _ _ _ c _ Hsel Hc) in Hset.
      destruct (Z.eqb_spec newState GOL__CELL_STATE__OFF) as [->|_].
      { injection Hset as <- <-. right. exists x', y', c. auto 10. }
      destruct (Z.eqb_spec newState GOL__CELL_STATE__ON) as [->|_].
      { injection Hset as <- <-. right. exists x', y', c. auto 10. }
      injection Hset as <- <-. left; auto.
    + unfold setCell in Hset. rewrite Hsel in Hset. simpl in Hset.
      rewrite loadChar_cellByte, Hc in Hset.
      destruct (newState =? GOL__CELL_STATE__OFF); [done|].
      destruct (newState =? GOL__CELL_STATE__ON); [done|].
      injection Hset as <- <-. left; auto.
Qed.

(** What a successful in-bounds write does: the cell reads back as written,
    the other cells and the shape of the grid are as before. *)
Lemma setCell_spec (fuel : nat) (g : Grid) (x y newState : Z) :
  wfGrid g -> inBounds g x y ->
  newState = GOL__CELL_STATE__OFF \/ newState = GOL__CELL_STATE__ON ->
  exists g', setCell fuel g x y newState = Ret (g', 0) /\
    wfGrid g' /\ sameShape g g' /\
    getCell fuel g' x y = Ret newState /\
    (forall x' y', inBounds g x' y' -> (x', y') <> (x, y) ->
       getCell fuel g' x' y' = getCell fuel g x' y').
Proof.
  intros Hwf Hin Hs.
  destruct (setCell_inBounds fuel g x y newState Hwf Hin) as (c & Hc & Hset).
  set (v := if newState =? GOL__CELL_STATE__OFF then 0 else char_of_int (Z.lor c 1)).
  assert (Hset' : setCell fuel g x y newState = Ret (putByte g x y v, 0)).
  { rewrite Hset. unfold v. by destruct Hs as [->| ->]. }
  assert (Hv : stateOfByte v = newState).
  { unfold v. destruct Hs as [->| ->]; [done|]. simpl.
    destruct (stateOfByte_cases (char_of_int (Z.lor c 1))) as [[Hz _]|[_ ->]]; [|done].
    exfalso. revert Hz. apply char_of_int_odd, lor_one_odd. }
  pose proof (putByte_shape g x y v) as (HsX & HsY & HsR).
  pose proof (putByte_wf g x y v Hwf) as Hwf'.
  exists (putByte g x y v). split; [done|]. split; [done|].
  split; [by unfold sameShape|].
  assert (Hin' : forall a b, inBounds g a b -> inBounds (putByte g x y v) a b).
  { unfold inBounds. intros a b. by rewrite HsX, HsY. }
  split.
  - destruct (getCell_inBounds fuel _ x y Hwf' (Hin' _ _ Hin)) as (c' & Hc' & ->).
    rewrite cellByte_putByte_same in Hc' by done.
    injection Hc' as <-. by rewrite Hv.
  - intros x' y' Hin2 Hne.
    destruct (getCell_inBounds fuel _ x' y' Hwf' (Hin' _ _ Hin2)) as (c' & Hc' & ->).
    destruct (getCell_inBounds fuel _ x' y' Hwf Hin2) as (c2 & Hc2 & ->).
    destruct Hin as [? ?], Hin2 as [? ?].
    rewrite cellByte_putByte_other in Hc' by (lia || done).
    congruence.
Qed.

(** ** Loops *)

Section Loops.

Context {St : Type} (body : Z -> St -> outcome St).

(** Total correctness of a counting loop: an invariant indexed by the loop
    counter that every iteration re-establishes holds when the loop ends,
    and the loop does end. *)
Lemma forLoop_invariant (P : Z -> St -> Prop) (n : nat) (i : Z) (s : St) :
  P i s ->
  (forall k t, i <= k < i + Z.of_nat n -> P k t ->
     exists t', body k t = Ret t' /\ P (k + 1) t') ->
  exists s', forLoop n i body s = Ret s' /\ P (i + Z.of_nat n) s'.
Proof.
  revert i s. induction n as [|n IH]; intros i s Hinit Hstep.
  - exists s. simpl. split; [done|]. by rewrite Z.add_0_r.
  - destruct (Hstep i s ltac:(lia) Hinit) as (t & Hbody & Ht).
    destruct (IH (i + 1) t Ht) as (s' & Hloop & Hs').
    { intros k u Hk. apply Hstep. lia. }
    exists s'. simpl. rewrite Hbody. simpl. split; [done|].
    replace (i + Z.of_nat (S n)) with (i + 1 + Z.of_nat n) by lia. done.
Qed.

Lemma forRange_invariant (P : Z -> St -> Prop) (lo hi : Z) (s : St) :
  lo <= hi -> P lo s ->
  (forall k t, lo <= k < hi -> P k t ->
     exists t', body k t = Ret t' /\ P (k + 1) t') ->
  exists s', forRange lo hi body s = Ret s' /\ P hi s'.
Proof.
  intros Hle Hinit Hstep. unfold forRange.
  destruct (forLoop_invariant P (Z.to_nat (hi - lo)) lo s Hinit) as (s' & Hl & Hs').
  { intros k t Hk. apply Hstep. lia. }
  exists s'. split; [done|].
  replace (lo + Z.of_nat (Z.to_nat (hi - lo))) with hi in Hs' by lia. done.
Qed.

(** Partial correctness: what every returning iteration preserves holds of
    whatever the loop returns. *)
Lemma forLoop_preserves (P : St -> Prop) (n : nat) (i : Z) (s s' : St) :
  (forall k t t', P t -> body k t = Ret t' -> P t') ->
  P s -> forLoop n i body s = Ret s' -> P s'.
Proof.
  intros Hbody. revert i s. induction n as [|n IH]; intros i s Hs; simpl.
  - by intros [= <-].
  - destruct (body i s) as [t| |] eqn:Hb; simpl; try done.
    apply IH. eapply Hbody; eauto.
Qed.

Lemma forRange_preserves (P : St -> Prop) (lo hi : Z) (s s' : St) :
  (forall k t t', P t -> body k t = Ret t' -> P t') ->
  P s -> forRange lo hi body s = Ret s' -> P s'.
Proof. unfold forRange. apply forLoop_preserves. Qed.

End Loops.

(** ** Counting neighbours *)

Lemma filter_length_cons {A : Type} (f : A -> bool) (a : A) (l : list A) :
  Z.of_nat (length (List.filter f (a :: l))) =
  (if f a then 1 else 0) + Z.of_nat (length (List.filter f l)).
Proof. simpl. destruct (f a); simpl; lia. Qed.

Lemma isOn_value (fuel : nat) (g : Grid) (x y n : Z) :
  getCell fuel g x y = Ret n ->
  n = GOL__CELL_STATE__OFF \/ n = GOL__CELL_STATE__ON ->
  (if isOn fuel g (x, y) then 1 else 0) = n.
Proof. unfold isOn. simpl. intros -> [->| ->]; done. Qed.

(** The sum of the eight reads of [iterateGame] is the number of neighbours
    read as On, when every read is Off or On. *)
Lemma neighbours_sum (fuel : nat) (g : Grid) (x y : Z) (n1 n2 n3 n4 n5 n6 n7 n8 : Z) :
  (forall a b, getCell fuel g a b = Ret GOL__CELL_STATE__OFF \/
               getCell fuel g a b = Ret GOL__CELL_STATE__ON) ->
  getCell fuel g (x - 1) (y - 1) = Ret n1 ->
  getCell fuel g (x - 1) y = Ret n2 ->
  getCell fuel g (x - 1) (y + 1) = Ret n3 ->
  getCell fuel g x (y - 1) = Ret n4 ->
  getCell fuel g x (y + 1) = Ret n5 ->
  getCell fuel g (x + 1) (y - 1) = Ret n6 ->
  getCell fuel g (x + 1) y = Ret n7 ->
  getCell fuel g (x + 1) (y + 1) = Ret n8 ->
  n1 + n2 + n3 + n4 + n5 + n6 + n7 + n8 = Z.of_nat (onNeighbours fuel g x y) /\
  (onNeighbours fuel g x y <= 8)%nat.
Proof.
  intros Hdef H1 H2 H3 H4 H5 H6 H7 H8.
  assert (Hv : forall a b n, getCell fuel g a b = Ret n ->
             (if isOn fuel g (a, b) then 1 else 0) = n /\ (n = 0 \/ n = 1)).
  { intros a b n Hn. destruct (Hdef a b) as [Hd|Hd]; rewrite Hd in Hn;
      injection Hn as <-; (split; [eapply isOn_value; eauto|auto]). }
  unfold onNeighbours, neighbourhood.
  apply Hv in H1, H2, H3, H4, H5, H6, H7, H8.
  assert (Hsum : Z.of_nat (length (List.filter (isOn fuel g)
      [ (x - 1, y - 1); (x - 1, y); (x - 1, y + 1); (x, y - 1); (x, y + 1);
        (x + 1, y - 1); (x + 1, y); (x + 1, y + 1) ])) =
      n1 + n2 + n3 + n4 + n5 + n6 + n7 + n8).
  { rewrite !filter_length_cons.
    destruct H1 as [-> _], H2 as [-> _], H3 as [-> _], H4 as [-> _],
      H5 as [-> _], H6 as [-> _], H7 as [-> _], H8 as [-> _].
    simpl. lia. }
  split; lia.
Qed.

(** ** The loops of [iterateGame] *)

Lemma b3s23_state (c : Z) (n : nat) :
  b3s23 c n = GOL__CELL_STATE__OFF \/ b3s23 c n = GOL__CELL_STATE__ON.
Proof.
  unfold b3s23.
  destruct (c =? GOL__CELL_STATE__OFF), (n =? 3)%nat, (n =? 2)%nat; auto.
Qed.

Lemma sameShape_inBounds (g1 g2 : Grid) (x y : Z) :
  sameShape g1 g2 -> inBounds g1 x y -> inBounds g2 x y.
Proof. unfold sameShape, inBounds. intros (-> & -> & _). done. Qed.

Lemma sameShape_trans (g1 g2 g3 : Grid) :
  sameShape g1 g2 -> sameShape g2 g3 -> sameShape g1 g3.
Proof. unfold sameShape. intros (-> & -> & ->) (-> & -> & ->). done. Qed.

Lemma sameShape_sym (g1 g2 : Grid) : sameShape g1 g2 -> sameShape g2 g1.
Proof. unfold sameShape. intros (-> & -> & ->). done. Qed.

Create HintDb grid.
#[local] Hint Resolve sameShape_sym sameShape_trans sameShape_inBounds : grid.

(** The four branches of the rule in [iterateGame] write [b3s23]. *)
Lemma rule_branches {A : Type} (c : Z) (n : nat) (k : Z -> A) :
  (n <= 8)%nat ->
  (if c =? GOL__CELL_STATE__OFF then
     if Z.of_nat n =? 3 then k GOL__CELL_STATE__ON else k GOL__CELL_STATE__OFF
   else
     if (Z.of_nat n <? 2) || (Z.of_nat n >? 3)
     then k GOL__CELL_STATE__OFF else k GOL__CELL_STATE__ON) = k (b3s23 c n).
Proof.
  intros Hn. unfold b3s23.
  destruct (c =? GOL__CELL_STATE__OFF).
  - destruct (Z.eqb_spec (Z.of_nat n) 3), (Nat.eqb_spec n 3); done || lia.
  - destruct (Z.ltb_spec (Z.of_nat n) 2), (Z.gtb_spec (Z.of_nat n) 3),
      (Nat.eqb_spec n 2), (Nat.eqb_spec n 3); simpl; done || lia.
Qed.

Section Step.

Variables (fuel : nat) (src : Grid).
Hypothesis Hwf : wfGrid src.
Hypothesis Hrule : validRule (outOfBoundsRule src).

(** The body of the loops at an in-bounds cell: it returns, the target cell
    then reads as the rule says, and the other target cells are as before. *)
Lemma iterateCell_spec (trg : Grid) (i j : Z) :
  inBounds src i j -> wfGrid trg -> sameShape src trg ->
  exists trg', iterateCell (S fuel) src i j trg = Ret trg' /\
    wfGrid trg' /\ sameShape src trg' /\
    getCell (S fuel) trg' i j = Ret (nextState (S fuel) src i j) /\
    (forall x y, inBounds src x y -> (x, y) <> (i, j) ->
       getCell (S fuel) trg' x y = getCell (S fuel) trg x y).
Proof.
  intros Hin Hwft Hshape.
  assert (Hdef : forall a b,
            getCell (S fuel) src a b = Ret GOL__CELL_STATE__OFF \/
            getCell (S fuel) src a b = Ret GOL__CELL_STATE__ON).
  { intros a b. apply getCell_defined; [done..|].
    intros _. destruct Hin as [? ?]. lia. }
  assert (Hex : forall a b, exists n, getCell (S fuel) src a b = Ret n).
  { intros a b. destruct (Hdef a b) as [->| ->]; eauto. }
  destruct (Hex (i - 1) (j - 1)) as [n1 H1], (Hex (i - 1) j) as [n2 H2],
    (Hex (i - 1) (j + 1)) as [n3 H3], (Hex i (j - 1)) as [n4 H4],
    (Hex i (j + 1)) as [n5 H5], (Hex (i + 1) (j - 1)) as [n6 H6],
    (Hex (i + 1) j) as [n7 H7], (Hex (i + 1) (j + 1)) as [n8 H8],
    (Hex i j) as [c Hc].
  destruct (neighbours_sum (S fuel) src i j _ _ _ _ _ _ _ _ Hdef H1 H2 H3 H4 H5 H6 H7 H8)
    as [Hsum Hle].
  assert (Hcell : iterateCell (S fuel) src i j trg =
            let! r := setCell (S fuel) trg i j (nextState (S fuel) src i j) in Ret r.1).
  { unfold iterateCell, nextState.
    rewrite H1, H2, H3, H4, H5, H6, H7, H8, Hc. unfold obind at 1 2 3 4 5 6 7 8 9.
    rewrite Z.add_0_l, Hsum, char_of_int_small by lia.
    apply (rule_branches c _ (fun s => let! r := setCell (S fuel) trg i j s in Ret r.1)).
    done. }
  assert (Hst : nextState (S fuel) src i j = GOL__CELL_STATE__OFF \/
                nextState (S fuel) src i j = GOL__CELL_STATE__ON).
  { unfold nextState. rewrite Hc. apply b3s23_state. }
  destruct (setCell_spec (S fuel) trg i j _ Hwft (sameShape_inBounds _ _ _ _ Hshape Hin) Hst)
    as (trg' & Hset & Hwf' & Hsh' & Hget & Hframe).
  exists trg'. rewrite Hcell, Hset. simpl.
  split; [done|]. split; [done|].
  split; [by eapply sameShape_trans|].
  split; [done|].
  intros x y Hxy Hne. apply Hframe; [|done].
  by eapply sameShape_inBounds.
Qed.

(** The two loops: every cell of the target grid ends up as the rule says. *)
Lemma iterateGrid_spec (trg : Grid) :
  wfGrid trg -> sameShape src trg ->
  exists trg', iterateGrid (S fuel) src trg = Ret trg' /\
    wfGrid trg' /\ sameShape src trg' /\
    (forall x y, inBounds src x y ->
       getCell (S fuel) trg' x y = Ret (nextState (S fuel) src x y)).
Proof.
  intros Hwft Hshape.
  pose proof Hwf as (HX & HY & _).
  set (done_before (i j : Z) (t : Grid) :=
         wfGrid t /\ sameShape src t /\
         forall x y, inBounds src x y -> x < i \/ (x = i /\ y < j) ->
           getCell (S fuel) t x y = Ret (nextState (S fuel) src x y)).
  unfold iterateGrid.
  destruct (forRange_invariant
              (fun i t1 => forRange 0 (gridSizeY src)
                 (fun j t2 => iterateCell (S fuel) src i j t2) t1)
              (fun i t => done_before i 0 t)
              0 (gridSizeX src) trg HX) as (trg' & Hrun & Hfin).
  - split; [done|]. split; [done|].
    intros x y [? ?] ?. lia.
  - intros i t Hi Hinv.
    destruct (forRange_invariant
                (fun j t2 => iterateCell (S fuel) src i j t2)
                (fun j t => done_before i j t)
                0 (gridSizeY src) t HY Hinv) as (t' & Hrow & Hfin).
    + intros j u Hj (Hwfu & Hshu & Hcells).
      destruct (iterateCell_spec u i j ltac:(split; lia) Hwfu Hshu)
        as (u' & Hcell & Hwfu' & Hshu' & Hget & Hframe).
      exists u'. split; [done|]. split; [done|]. split; [done|].
      intros x y Hxy Hlt.
      destruct (decide ((x, y) = (i, j))) as [[= -> ->]|Hne]; [done|].
      rewrite Hframe by done. apply Hcells; [done|].
      assert (~ (x = i /\ y = j)) by (intros [-> ->]; done). lia.
    + exists t'. split; [done|].
      destruct Hfin as (Hwf' & Hsh' & Hcells).
      split; [done|]. split; [done|].
      intros x y Hxy Hlt. apply Hcells; [done|].
      destruct Hxy as [? ?]. lia.
  - exists trg'. split; [done|].
    destruct Hfin as (Hwf' & Hsh' & Hcells).
    split; [done|]. split; [done|].
    intros x y Hxy. apply Hcells; [done|]. destruct Hxy as [? ?]. lia.
Qed.

End Step.

(** ** [createGrid] and [createGame] *)

Lemma lldivGreater_sizeof_char (y : Z) :
  lldivGreater y sizeof_char = Ret {| quot := y; rem := 0 |}.
Proof. unfold lldivGreater. by rewrite lldiv_sizeof_char. Qed.

Lemma allocRows_Some (a : Allocator) (n i : nat) (rowLen : Z) (rows : list (list Z)) :
  allocRows a n i rowLen = Some rows ->
  rows = replicate n (replicate (Z.to_nat rowLen) 0).
Proof.
  revert i rows. induction n as [|n IH]; intros i rows; simpl.
  - by intros [= <-].
  - destruct (calloc_row_ok a i); [|done].
    destruct (allocRows a n (S i) rowLen) as [rows'|] eqn:Hrows; [|done].
    intros [= <-]. f_equal. by eapply IH.
Qed.

Lemma allocRows_allocAll (n i : nat) (rowLen : Z) :
  allocRows allocAll n i rowLen = Some (replicate n (replicate (Z.to_nat rowLen) 0)).
Proof.
  revert i. induction n as [|n IH]; intros i; simpl; [done|]. by rewrite IH.
Qed.

(** A created grid has nonnegative sizes and [sizeX] rows of [sizeY] chars,
    all zero: one char per cell. *)
Lemma createGrid_Some (a : Allocator) (sizeX sizeY rule : Z) (g : Grid) :
  createGrid a sizeX sizeY rule = Ret (Some g) ->
  0 <= sizeX /\ 0 <= sizeY /\
  g = {| origin := replicate (Z.to_nat sizeX) (replicate (Z.to_nat sizeY) 0);
         gridSizeX := sizeX; gridSizeY := sizeY;
         arraySizeX := sizeX; arraySizeY := sizeY;
         outOfBoundsRule := rule |}.
Proof.
  unfold createGrid.
  destruct (Z.ltb_spec sizeX 0); [done|].
  destruct (Z.ltb_spec sizeY 0); [done|]. simpl.
  destruct (malloc_ok a); [|done]. simpl.
  rewrite lldivGreater_sizeof_char. simpl.
  destruct (calloc_origin_ok a); [|done]. simpl.
  destruct (allocRows a (Z.to_nat sizeX) 0 sizeY) as [rows|] eqn:Hrows; [|done].
  apply allocRows_Some in Hrows. intros [= <-]. by rewrite Hrows.
Qed.

Lemma createGrid_allocAll (sizeX sizeY rule : Z) :
  0 <= sizeX -> 0 <= sizeY ->
  createGrid allocAll sizeX sizeY rule =
  Ret (Some {| origin := replicate (Z.to_nat sizeX) (replicate (Z.to_nat sizeY) 0);
               gridSizeX := sizeX; gridSizeY := sizeY;
               arraySizeX := sizeX; arraySizeY := sizeY;
               outOfBoundsRule := rule |}).
Proof.
  intros HX HY. unfold createGrid.
  destruct (Z.ltb_spec sizeX 0); [lia|].
  destruct (Z.ltb_spec sizeY 0); [lia|]. simpl.
  rewrite lldivGreater_sizeof_char. simpl.
  by rewrite allocRows_allocAll.
Qed.

Lemma createGrid_wf (a : Allocator) (sizeX sizeY rule : Z) (g : Grid) :
  createGrid a sizeX sizeY rule = Ret (Some g) ->
  wfGrid g /\ bytes01 g /\
  gridSizeX g = sizeX /\ gridSizeY g = sizeY /\ outOfBoundsRule g = rule.
Proof.
  intros Hc. apply createGrid_Some in Hc as (HX & HY & ->).
  unfold wfGrid, bytes01. simpl.
  rewrite length_replicate.
  repeat split; try done.
  - apply Forall_replicate. by rewrite length_replicate.
  - apply Forall_replicate, Forall_replicate. by left.
Qed.

Lemma createGame_Some (ok : bool) (aA aB : Allocator) (sizeX sizeY rule : Z) (gm : Game) :
  createGame ok aA aB sizeX sizeY rule = Ret (Some gm) ->
  createGrid aA sizeX sizeY rule = Ret (Some (gridA gm)) /\
  createGrid aB sizeX sizeY rule = Ret (Some (gridB gm)) /\
  currentGridPtr gm = PtrGridA.
Proof.
  unfold createGame. destruct ok; [|done]. simpl.
  destruct (createGrid aA sizeX sizeY rule) as [[gA|]| |]; try done. simpl.
  destruct (createGrid aB sizeX sizeY rule) as [[gB|]| |]; try done. simpl.
  by intros [= <-].
Qed.

(** A created game is well-formed when its rule is one of the three. *)
Lemma createGame_wf (ok : bool) (aA aB : Allocator) (sizeX sizeY rule : Z) (gm : Game) :
  createGame ok aA aB sizeX sizeY rule = Ret (Some gm) ->
  validRule rule -> wfGame gm /\ currentGridPtr gm = PtrGridA.
Proof.
  intros Hc Hrule. apply createGame_Some in Hc as (HA & HB & Hp).
  apply createGrid_wf in HA as (HwA & _ & HAx & HAy & HAr).
  apply createGrid_wf in HB as (HwB & _ & HBx & HBy & HBr).
  split; [|done]. unfold wfGame, sameShape.
  rewrite HAx, HAy, HAr, HBx, HBy, HBr. done.
Qed.

(** ** One step of a game *)

Lemma wfGame_current (gm : Game) :
  wfGame gm ->
  wfGrid (currentGrid gm) /\ wfGrid (otherGrid gm) /\
  sameShape (currentGrid gm) (otherGrid gm) /\
  validRule (outOfBoundsRule (currentGrid gm)).
Proof.
  intros (HwA & HwB & Hsh & Hrule).
  unfold currentGrid, otherGrid.
  destruct (currentGridPtr gm); try done.
  pose proof Hsh as (_ & _ & Hr). rewrite <- Hr.
  split_and!; try done. by apply sameShape_sym.
Qed.

(** [iterateGame] on a well-formed game returns, keeps the source grid,
    makes the other grid current, and every cell of the new current grid
    reads as the rule applied to the source grid. *)
Lemma iterateGame_spec (fuel : nat) (gm : Game) :
  wfGame gm -> currentGridPtr gm <> PtrOther ->
  exists gm', iterateGame (S fuel) gm = Ret gm' /\
    wfGame gm' /\
    currentGridPtr gm' <> PtrOther /\
    currentGridPtr gm' <> currentGridPtr gm /\
    otherGrid gm' = currentGrid gm /\
    sameShape (currentGrid gm) (currentGrid gm') /\
    (forall x y, inBounds (currentGrid gm) x y ->
       getCell (S fuel) (currentGrid gm') x y =
       Ret (nextState (S fuel) (currentGrid gm) x y)).
Proof.
  intros Hwf Hptr.
  destruct (wfGame_current gm Hwf) as (Hwc & Hwo & Hsh & Hrule).
  destruct (iterateGrid_spec fuel _ Hwc Hrule _ Hwo Hsh) as (trg & Hrun & Hwt & Hsht & Hcells).
  destruct Hwf as (HwA & HwB & HshAB & HruleA).
  unfold iterateGame, currentGrid, otherGrid in *.
  destruct (currentGridPtr gm) eqn:Hp; [| |done].
  - eexists. rewrite Hrun. simpl. split; [done|].
    unfold wfGame. simpl. split_and!; done.
  - eexists. rewrite Hrun. simpl. split; [done|].
    pose proof Hsht as (? & ? & Hr).
    unfold wfGame. simpl. rewrite <- Hr.
    split_and!; done.
Qed.

(** ** Sample grids *)

Lemma emptyGrid_created (sizeX sizeY rule : Z) :
  0 <= sizeX -> 0 <= sizeY ->
  createGrid allocAll sizeX sizeY rule = Ret (Some (emptyGrid sizeX sizeY rule)).
Proof. apply createGrid_allocAll. Qed.

Lemma emptyGrid_wf (sizeX sizeY rule : Z) :
  0 <= sizeX -> 0 <= sizeY -> wfGrid (emptyGrid sizeX sizeY rule).
Proof.
  intros HX HY.
  by destruct (createGrid_wf _ _ _ _ _ (emptyGrid_created sizeX sizeY rule HX HY)).
Qed.

Lemma emptyGame_created (sizeX sizeY rule : Z) :
  0 <= sizeX -> 0 <= sizeY ->
  createGame true allocAll allocAll sizeX sizeY rule =
  Ret (Some (emptyGame sizeX sizeY rule)).
Proof.
  intros HX HY. unfold createGame. simpl.
  by rewrite emptyGrid_created.
Qed.

Lemma emptyGame_wf (sizeX sizeY rule : Z) :
  0 <= sizeX -> 0 <= sizeY -> validRule rule -> wfGame (emptyGame sizeX sizeY rule).
Proof.
  intros HX HY Hr.
  by destruct (createGame_wf _ _ _ _ _ _ _ (emptyGame_created sizeX sizeY rule HX HY) Hr).
Qed.

Lemma blinkerGrid_set :
  (let! g1 := setCell_ 0 (emptyGrid 5 5 GOL__OOBR__ALL_OFF) 1 0 GOL__CELL_STATE__ON in
   let! g2 := setCell_ 0 g1 1 1 GOL__CELL_STATE__ON in
   setCell_ 0 g2 1 2 GOL__CELL_STATE__ON) = Ret blinkerGrid.
Proof. reflexivity. Qed.

Lemma blinkerGame_wf : wfGame blinkerGame.
Proof.
  unfold wfGame, wfGrid, sameShape, validRule. simpl.
  split_and!; try done; try lia; auto; repeat constructor.
Qed.

(** ** Reads on an empty torus and the layout of the storage *)

Lemma getCell_torus_empty (fuel : nat) (g : Grid) (x y : Z) :
  outOfBoundsRule g = GOL__OOBR__TORUS ->
  gridSizeX g = 0 \/ gridSizeY g = 0 ->
  getCell fuel g x y = Undefined.
Proof.
  intros Hrule Hempty. unfold getCell.
  rewrite selsectCell_unfold, inBounds_test_false
    by (unfold inBounds; lia).
  rewrite Hrule. change (GOL__OOBR__TORUS =? GOL__OOBR__TORUS) with true. cbv iota.
  destruct Hempty as [-> | ->].
  - by rewrite lldivPositive_zero.
  - rewrite lldivPositive_zero.
    destruct (lldivPositive_cases x (gridSizeX g)) as [[r ->]| ->]; reflexivity.
Qed.

(** X11. The layout the code implements, for every grid: the in-bounds cell
    [(x, y)] is the char [origin[x][y]] with bit index 0, in a storage of
    [gridSizeX] by [gridSizeY] chars. *)
Lemma selsectCell_layout (fuel : nat) (a : Allocator) (sizeX sizeY rule : Z) (g : Grid) (x y : Z) :
  createGrid a sizeX sizeY rule = Ret (Some g) -> inBounds g x y ->
  selsectCell fuel g x y =
    Ret {| storageCharPtr := Some (Z.to_nat x, Z.to_nat (y / sizeof_char));
           bitIndex := y mod sizeof_char |} /\
  length (origin g) = Z.to_nat sizeX /\
  Forall (fun row => length row = Z.to_nat sizeY) (origin g).
Proof.
  intros Hc Hin.
  destruct (createGrid_wf _ _ _ _ _ Hc) as (Hwf & _ & HX & HY & _).
  unfold sizeof_char. rewrite Z.div_1_r, Z.mod_1_r.
  split; [by apply selsectCell_inBounds|].
  destruct Hwf as (_ & _ & Hlen & Hrows). by rewrite <- HX, <- HY.
Qed.

(** ** Steps of a game on a pattern *)

Lemma onNeighbours_zero (fuel : nat) (g : Grid) (x y : Z) :
  (forall a b, getCell fuel g a b = Ret GOL__CELL_STATE__OFF) ->
  onNeighbours fuel g x y = 0%nat.
Proof.
  intros Hoff.
  assert (Hf : forall p, isOn fuel g p = false).
  { intros [a b]. unfold isOn. simpl fst. simpl snd. by rewrite Hoff. }
  unfold onNeighbours, neighbourhood. cbn [List.filter].
  by rewrite !Hf.
Qed.

(** Without torus and with rule AllOff, a grid whose reads inside the grid
    follow a pattern lying inside the grid steps to the rule applied to the
    pattern. *)
Lemma iterateGame_pattern (fuel : nat) (gm : Game) (P : Z -> Z -> bool) :
  wfGame gm -> currentGridPtr gm <> PtrOther ->
  outOfBoundsRule (currentGrid gm) = GOL__OOBR__ALL_OFF ->
  (forall x y, P x y = true -> inBounds (currentGrid gm) x y) ->
  (forall x y, inBounds (currentGrid gm) x y ->
     getCell (S fuel) (currentGrid gm) x y = Ret (c_bool (P x y))) ->
  exists gm', iterateGame (S fuel) gm = Ret gm' /\
    wfGame gm' /\ currentGridPtr gm' <> PtrOther /\
    sameShape (currentGrid gm) (currentGrid gm') /\
    (forall x y, inBounds (currentGrid gm) x y ->
       getCell (S fuel) (currentGrid gm') x y =
       Ret (b3s23 (c_bool (P x y)) (patternNeighbours P x y))).
Proof.
  intros Hwf Hptr Hrule Hinside Hreads.
  destruct (iterateGame_spec fuel gm Hwf Hptr)
    as (gm' & Hrun & Hwf' & Hptr' & _ & _ & Hsh & Hcells).
  exists gm'. split_and!; try done.
  assert (Hall : forall a b,
            getCell (S fuel) (currentGrid gm) a b = Ret (c_bool (P a b))).
  { intros a b. destruct (inBounds_dec (currentGrid gm) a b) as [Hin|Hout].
    - by apply Hreads.
    - rewrite getCell_outside_ALL_OFF by done.
      destruct (P a b) eqn:HP; [|done]. exfalso. by apply Hout, Hinside. }
  assert (Hon : forall p, isOn (S fuel) (currentGrid gm) p = P p.1 p.2).
  { intros p. unfold isOn. rewrite Hall. by destruct (P p.1 p.2). }
  intros x y Hin. rewrite Hcells by done. unfold nextState. rewrite Hall.
  unfold onNeighbours, patternNeighbours.
  by rewrite (List.filter_ext _ _ Hon).
Qed.

Ltac decide_tests :=
  repeat match goal with
    | |- context [Z.eqb ?a ?b] => destruct (Z.eqb_spec a b); try lia
    | |- context [Z.leb ?a ?b] => destruct (Z.leb_spec a b); try lia
    end.

Lemma blinkerA_step (x y : Z) :
  b3s23 (c_bool (inBlinkerA x y)) (patternNeighbours inBlinkerA x y) =
  c_bool (inBlinkerB x y).
Proof.
  unfold patternNeighbours, neighbourhood, inBlinkerA, inBlinkerB.
  cbn [List.filter fst snd]. decide_tests; reflexivity.
Qed.

Lemma blinkerB_step (x y : Z) :
  b3s23 (c_bool (inBlinkerB x y)) (patternNeighbours inBlinkerB x y) =
  c_bool (inBlinkerA x y).
Proof.
  unfold patternNeighbours, neighbourhood, inBlinkerA, inBlinkerB.
  cbn [List.filter fst snd]. decide_tests; reflexivity.
Qed.

Lemma inBlinkerA_In (x y : Z) : inBlinkerA x y = true <-> In (x, y) blinkerA.
Proof.
  unfold inBlinkerA, blinkerA. simpl. split.
  - intros H. apply andb_prop in H as [H Hy2]. apply andb_prop in H as [Hx Hy0].
    assert (x = 1 /\ 0 <= y <= 2) as [-> Hy] by lia.
    assert (y = 0 \/ y = 1 \/ y = 2) as [-> | [-> | ->]] by lia; auto.
  - intros [[= <- <-]|[[= <- <-]|[[= <- <-]|[]]]]; reflexivity.
Qed.

Lemma inBlinkerB_In (x y : Z) : inBlinkerB x y = true <-> In (x, y) blinkerB.
Proof.
  unfold inBlinkerB, blinkerB. simpl. split.
  - intros H. apply andb_prop in H as [H Hx2]. apply andb_prop in H as [Hy Hx0].
    assert (y = 1 /\ 0 <= x <= 2) as [-> Hx] by lia.
    assert (x = 0 \/ x = 1 \/ x = 2) as [-> | [-> | ->]] by lia; auto.
  - intros [[= <- <-]|[[= <- <-]|[[= <- <-]|[]]]]; reflexivity.
Qed.

(** Reads that are On exactly on a pattern are the reads [c_bool] of the
    membership test, and conversely. *)
Lemma reads_of_pattern (fuel : nat) (g : Grid) (P : Z -> Z -> bool) (x y : Z) :
  wfGrid g -> inBounds g x y ->
  (getCell fuel g x y = Ret GOL__CELL_STATE__ON <-> P x y = true) ->
  getCell fuel g x y = Ret (c_bool (P x y)).
Proof.
  intros Hwf Hin Hiff.
  destruct (getCell_inBounds fuel g x y Hwf Hin) as (c & _ & Hget).
  destruct (P x y) eqn:HP.
  - by apply Hiff.
  - rewrite Hget in *.
    destruct (stateOfByte_cases c) as [[_ ->]|[_ Hs]]; [done|].
    rewrite Hs in Hiff. discriminate (proj1 Hiff eq_refl).
Qed.

Lemma pattern_of_reads (fuel : nat) (g : Grid) (P : Z -> Z -> bool) (x y : Z) :
  getCell fuel g x y = Ret (c_bool (P x y)) ->
  (getCell fuel g x y = Ret GOL__CELL_STATE__ON <-> P x y = true).
Proof. intros ->. by destruct (P x y). Qed.

Lemma blinkerGame_reads (x y : Z) :
  inBounds (currentGrid blinkerGame) x y ->
  (getCell 1 (currentGrid blinkerGame) x y = Ret GOL__CELL_STATE__ON <->
   In (x, y) blinkerA).
Proof.
  intros [Hx Hy]. simpl in Hx, Hy. rewrite <- inBlinkerA_In.
  assert (x = 0 \/ x = 1 \/ x = 2 \/ x = 3 \/ x = 4)
    as [-> | [-> | [-> | [-> | ->]]]] by lia;
    assert (y = 0 \/ y = 1 \/ y = 2 \/ y = 3 \/ y = 4)
      as [-> | [-> | [-> | [-> | ->]]]] by lia;
    vm_compute; split; intros H; (reflexivity || discriminate H).
Qed.

(** ** What the operations keep of a grid *)

Lemma keepsGrid_refl (g : Grid) : keepsGrid g g.
Proof. unfold keepsGrid, sameShape. done. Qed.

Lemma keepsGrid_trans (g1 g2 g3 : Grid) :
  keepsGrid g1 g2 -> keepsGrid g2 g3 -> keepsGrid g1 g3.
Proof.
  intros (Hs12 & Hw12 & Hb12) (Hs23 & Hw23 & Hb23).
  split; [by eapply sameShape_trans|]. split; auto.
Qed.

Lemma putByte_keeps (g : Grid) (x y v : Z) :
  (bytes01 g -> v = 0 \/ v = 1) -> keepsGrid g (putByte g x y v).
Proof.
  intros Hv. pose proof (putByte_shape g x y v) as (HX & HY & HR).
  split; [by unfold sameShape|]. split.
  - apply putByte_wf.
  - intros Hb. apply putByte_bytes01; auto.
Qed.

Lemma setCell_keeps (fuel : nat) (g : Grid) (x y newState : Z) (g' : Grid) (err : Z) :
  setCell fuel g x y newState = Ret (g', err) -> keepsGrid g g'.
Proof.
  intros Hset.
  destruct (setCell_result _ _ _ _ _ _ _ Hset)
    as [[-> _]|(x' & y' & c & Hin & Hc & _ & [[_ ->]|[_ ->]])].
  - apply keepsGrid_refl.
  - apply putByte_keeps. auto.
  - apply putByte_keeps. intros Hb. right.
    destruct (bytes01_cellByte _ _ _ _ Hb Hc) as [-> | ->]; reflexivity.
Qed.

Lemma randomizeGrid_keeps (fuel : nat) (rand : nat -> Z) (s s' : Grid * nat) :
  randomizeGrid fuel rand s = Ret s' -> keepsGrid s.1 s'.1.
Proof.
  unfold randomizeGrid.
  apply (forRange_preserves _ (fun t : Grid * nat => keepsGrid s.1 t.1));
    [|apply keepsGrid_refl].
  intros i t t' Ht.
  apply (forRange_preserves _ (fun t : Grid * nat => keepsGrid s.1 t.1)); [|done].
  clear. intros j [g k] t' Hg. unfold randomizeCell. simpl fst. simpl snd.
  destruct (truth (Z.rem (rand k) 2)).
  - destruct (setCell fuel g i j GOL__CELL_STATE__OFF) as [[g' e]| |] eqn:Hset;
      simpl; try done.
    intros [= <-]. simpl in *. eapply keepsGrid_trans; [done|].
    by eapply setCell_keeps.
  - destruct (setCell fuel g i j GOL__CELL_STATE__ON) as [[g' e]| |] eqn:Hset;
      simpl; try done.
    intros [= <-]. simpl in *. eapply keepsGrid_trans; [done|].
    by eapply setCell_keeps.
Qed.

(** Whenever the body of the loops of [iterateGame] returns, it has made
    one call of [setCell] on the target grid. *)
Lemma iterateCell_result (fuel : nat) (src trg : Grid) (i j : Z) (trg' : Grid) :
  iterateCell fuel src i j trg = Ret trg' ->
  exists newState err, setCell fuel trg i j newState = Ret (trg', err).
Proof.
  unfold iterateCell.
  destruct (getCell fuel src (i - 1) (j - 1)) as [n1| |]; [|done..].
  destruct (getCell fuel src (i - 1) j) as [n2| |]; [|done..].
  destruct (getCell fuel src (i - 1) (j + 1)) as [n3| |]; [|done..].
  destruct (getCell fuel src i (j - 1)) as [n4| |]; [|done..].
  destruct (getCell fuel src i (j + 1)) as [n5| |]; [|done..].
  destruct (getCell fuel src (i + 1) (j - 1)) as [n6| |]; [|done..].
  destruct (getCell fuel src (i + 1) j) as [n7| |]; [|done..].
  destruct (getCell fuel src (i + 1) (j + 1)) as [n8| |]; [|done..].
  destruct (getCell fuel src i j) as [c| |]; [|done..].
  unfold obind at 1 2 3 4 5 6 7 8 9.
  assert (Hk : forall s, (let! r := setCell fuel trg i j s in Ret r.1) = Ret trg' ->
             exists newState err, setCell fuel trg i j newState = Ret (trg', err)).
  { intros s. destruct (setCell fuel trg i j s) as [[g e]| |] eqn:Hset; simpl; try done.
    intros [= <-]. eauto. }
  destruct (c =? GOL__CELL_STATE__OFF).
  - destruct (_ =? 3); apply Hk.
  - destruct (_ || _); apply Hk.
Qed.

Lemma iterateGrid_keeps (fuel : nat) (src trg trg' : Grid) :
  iterateGrid fuel src trg = Ret trg' -> keepsGrid trg trg'.
Proof.
  unfold iterateGrid.
  apply (forRange_preserves _ (fun t => keepsGrid trg t)); [|apply keepsGrid_refl].
  intros i t t' Hkeep.
  apply (forRange_preserves _ (fun t => keepsGrid trg t)); [|done].
  clear. intros j t t' Hkeep Hcell.
  destruct (iterateCell_result _ _ _ _ _ _ Hcell) as (s & e & Hset).
  eapply keepsGrid_trans; [done|]. by eapply setCell_keeps.
Qed.

(** The two grids of a reachable game are laid out as [createGrid] lays
    them out, hold only the chars 0 and 1, have the same shape, and one of
    them is current. *)
Lemma reachableGame_good (fuel : nat) (gm : Game) :
  reachableGame fuel gm ->
  (wfGrid (gridA gm) /\ bytes01 (gridA gm)) /\
  (wfGrid (gridB gm) /\ bytes01 (gridB gm)) /\
  sameShape (gridA gm) (gridB gm) /\
  currentGridPtr gm <> PtrOther.
Proof.
  induction 1 as [ok aA aB sizeX sizeY rule gm Hc
                 | gm gm' _ ([HwA HbA] & [HwB HbB] & IHs & IHp) Hstep
                 | gm rand k gm' k' _ ([HwA HbA] & [HwB HbB] & IHs & IHp) Hrand
                 | gm x y newState g' err _ ([HwA HbA] & [HwB HbB] & IHs & IHp) Hset].
  - apply createGame_Some in Hc as (HA & HB & Hp).
    apply createGrid_wf in HA as (? & ? & HAx & HAy & HAr).
    apply createGrid_wf in HB as (? & ? & HBx & HBy & HBr).
    refine (conj (conj _ _) (conj (conj _ _) (conj _ _))); try done.
    + unfold sameShape. by rewrite HAx, HAy, HAr, HBx, HBy, HBr.
    + by rewrite Hp.
  - unfold iterateGame in Hstep. destruct (currentGridPtr gm); [| |done].
    + destruct (iterateGrid fuel (gridA gm) (gridB gm)) as [t| |] eqn:Hrun; try done.
      injection Hstep as <-. simpl.
      apply iterateGrid_keeps in Hrun as (Hs & Hw & Hb).
      refine (conj (conj _ _) (conj (conj _ _) (conj _ _))); auto.
      by eapply sameShape_trans.
    + destruct (iterateGrid fuel (gridB gm) (gridA gm)) as [t| |] eqn:Hrun; try done.
      injection Hstep as <-. simpl.
      apply iterateGrid_keeps in Hrun as (Hs & Hw & Hb).
      refine (conj (conj _ _) (conj (conj _ _) (conj _ _))); auto.
      eapply sameShape_trans; [|done]. by apply sameShape_sym.
  - unfold randomizeGame in Hrand. simpl fst in Hrand. simpl snd in Hrand.
    destruct (randomizeGrid fuel rand (currentGrid gm, k)) as [[g n]| |] eqn:Hrun;
      try done.
    injection Hrand as <- _.
    apply randomizeGrid_keeps in Hrun as (Hs & Hw & Hb). simpl in Hs, Hw, Hb.
    unfold withCurrentGrid, currentGrid in *.
    destruct (currentGridPtr gm); [| |done]; simpl;
      refine (conj (conj _ _) (conj (conj _ _) (conj _ _))); auto.
    + eapply sameShape_trans; [|done]. by apply sameShape_sym.
    + by eapply sameShape_trans.
  - apply setCell_keeps in Hset as (Hs & Hw & Hb).
    unfold withCurrentGrid, currentGrid in *.
    destruct (currentGridPtr gm); [| |done]; simpl;
      refine (conj (conj _ _) (conj (conj _ _) (conj _ _))); auto.
    + eapply sameShape_trans; [|done]. by apply sameShape_sym.
    + by eapply sameShape_trans.
Qed.

(** A reachable game whose rule is one of the three satisfies the
    assumptions of the theorems on [iterateGame]. *)
Lemma reachableGame_wf (fuel : nat) (gm : Game) :
  reachableGame fuel gm -> validRule (outOfBoundsRule (gridA gm)) ->
  wfGame gm /\ currentGridPtr gm <> PtrOther.
Proof.
  intros Hreach Hrule.
  destruct (reachableGame_good fuel gm Hreach) as ((? & _) & (? & _) & ? & ?).
  split; [|done]. unfold wfGame. auto.
Qed.

Lemma reachableGrid_good (fuel : nat) (g : Grid) :
  reachableGrid fuel g -> wfGrid g /\ bytes01 g.
Proof.
  induction 1 as [a sizeX sizeY rule g Hc
                 | g x y newState g' err _ [IHw IHb] Hset
                 | g rand k g' k' _ [IHw IHb] Hrand
                 | gm Hgm | gm Hgm].
  - by apply createGrid_wf in Hc as (? & ? & _).
  - apply setCell_keeps in Hset as (_ & Hw & Hb). auto.
  - apply randomizeGrid_keeps in Hrand as (_ & Hw & Hb). auto.
  - by apply reachableGame_good in Hgm as (? & _).
  - by apply reachableGame_good in Hgm as (_ & ? & _).
Qed.

(** The truth test of [getCell] on a char that is 0 or 1 is the test of
    bit 0 of the char; on another char it need not be. *)
Lemma stateOfByte_bit0 (c : Z) :
  c = 0 \/ c = 1 -> stateOfByte c = c_bool (Z.testbit c 0) /\ stateOfByte c = c.
Proof. intros [-> | ->]; done. Qed.

Lemma stateOfByte_not_bit0 : stateOfByte 2 <> c_bool (Z.testbit 2 0).
Proof. discriminate. Qed.

Lemma blinkerGrid_reachable : reachableGrid 0 blinkerGrid.
Proof.
  pose (g0 := emptyGrid 5 5 GOL__OOBR__ALL_OFF).
  pose (g1 := putByte g0 1 0 1).
  pose (g2 := putByte g1 1 1 1).
  assert (H0 : reachableGrid 0 g0).
  { apply (reach_createGrid 0 allocAll 5 5 GOL__OOBR__ALL_OFF). reflexivity. }
  assert (H1 : reachableGrid 0 g1).
  { apply (reach_setCell 0 g0 1 0 GOL__CELL_STATE__ON g1 0 H0). reflexivity. }
  assert (H2 : reachableGrid 0 g2).
  { apply (reach_setCell 0 g1 1 1 GOL__CELL_STATE__ON g2 0 H1). reflexivity. }
  apply (reach_setCell 0 g2 1 2 GOL__CELL_STATE__ON blinkerGrid 0 H2). reflexivity.
Qed.

(** * The properties of the specification *)

(** C1. One step of a game whose two grids have the same width, height
    and rule: [iterateGame] returns; the source grid is kept and the other
    grid becomes current; and for every cell [(x, y)] of the grid, with [n]
    the number of the eight neighbours that [getCell] reads as On in the
    source grid (every such read returns Off or On): a cell read as Off
    becomes On iff [n = 3], a cell read as On stays On iff [n = 2] or
    [n = 3], otherwise the cell is Off. Every cell of the destination grid
    reads as [nextState], a function of the source grid alone, so none keeps
    a value of an earlier generation. *)
Theorem iterateGame_rule (fuel : nat) (gm : Game) :
  wfGame gm -> currentGridPtr gm <> PtrOther ->
  exists gm', iterateGame (S fuel) gm = Ret gm' /\
    otherGrid gm' = currentGrid gm /\
    currentGridPtr gm' <> currentGridPtr gm /\
    sameShape (currentGrid gm) (currentGrid gm') /\
    forall x y, inBounds (currentGrid gm) x y ->
      let src := currentGrid gm in
      let dst := currentGrid gm' in
      let n := onNeighbours (S fuel) src x y in
      (forall p, In p ((x, y) :: neighbourhood x y) ->
         getCell (S fuel) src p.1 p.2 = Ret GOL__CELL_STATE__OFF \/
         getCell (S fuel) src p.1 p.2 = Ret GOL__CELL_STATE__ON) /\
      (getCell (S fuel) src x y = Ret GOL__CELL_STATE__OFF ->
         (getCell (S fuel) dst x y = Ret GOL__CELL_STATE__ON <-> n = 3%nat)) /\
      (getCell (S fuel) src x y = Ret GOL__CELL_STATE__ON ->
         (getCell (S fuel) dst x y = Ret GOL__CELL_STATE__ON <->
            n = 2%nat \/ n = 3%nat)) /\
      (getCell (S fuel) dst x y = Ret GOL__CELL_STATE__ON \/
       getCell (S fuel) dst x y = Ret GOL__CELL_STATE__OFF) /\
      getCell (S fuel) dst x y = Ret (nextState (S fuel) src x y).
Proof.
  intros Hwf Hptr.
  destruct (iterateGame_spec fuel gm Hwf Hptr)
    as (gm' & Hrun & _ & _ & Hflip & Hother & Hsh & Hcells).
  exists gm'. split_and!; try done.
  intros x y Hin. cbv zeta.
  destruct (wfGame_current gm Hwf) as (Hwc & _ & _ & Hrule).
  assert (Hdef : forall a b,
            getCell (S fuel) (currentGrid gm) a b = Ret GOL__CELL_STATE__OFF \/
            getCell (S fuel) (currentGrid gm) a b = Ret GOL__CELL_STATE__ON).
  { intros a b. apply getCell_defined; [done..|].
    intros _. destruct Hin as [? ?]. lia. }
  pose proof (Hcells x y Hin) as Hdst.
  unfold nextState in Hdst |- *.
  set (n := onNeighbours (S fuel) (currentGrid gm) x y) in *.
  split_and!.
  - intros p _. apply Hdef.
  - intros Hoff. rewrite Hdst, Hoff. unfold b3s23. simpl.
    destruct (Nat.eqb_spec n 3); split; done.
  - intros Hon. rewrite Hdst, Hon. unfold b3s23. simpl.
    destruct (Nat.eqb_spec n 2), (Nat.eqb_spec n 3); simpl; split;
      try done; try lia; auto; intros [?|?]; done.
  - rewrite Hdst. destruct (Hdef x y) as [-> | ->];
      destruct (b3s23_state GOL__CELL_STATE__OFF n) as [Ho|Ho];
      destruct (b3s23_state GOL__CELL_STATE__ON n) as [Ho'|Ho'];
      rewrite ?Ho, ?Ho'; auto.
  - done.
Qed.

Lemma iterateGame_rule_witness :
  wfGame blinkerGame /\ currentGridPtr blinkerGame <> PtrOther /\
  exists gm', iterateGame 1 blinkerGame = Ret gm' /\
              otherGrid gm' = currentGrid blinkerGame.
Proof.
  assert (Hptr : currentGridPtr blinkerGame <> PtrOther) by discriminate.
  split; [exact blinkerGame_wf|]. split; [exact Hptr|].
  destruct (iterateGame_rule 0 blinkerGame blinkerGame_wf Hptr)
    as (gm' & Hrun & Hother & _).
  exists gm'. split; [exact Hrun|exact Hother].
Defined.

(** C2, at the failing input. In the created 1 by 2 grid the cell (0, 1)
    is selected at char index 1 with bit index 0 and the row has 2 chars,
    where the layout with [CHAR_BIT] cells per char puts it at char index
    0, bit 1, in a row of 1 char. *)
Theorem selsectCell_one_cell_per_char (fuel : nat) :
  createGrid allocAll 1 2 GOL__OOBR__ALL_OFF = Ret (Some grid12) /\
  selsectCell fuel grid12 0 1 =
    Ret {| storageCharPtr := Some (0%nat, 1%nat); bitIndex := 0 |} /\
  (packed_wordIndex 1 = 0 /\ packed_bitOffset 1 = 1) /\
  (origin grid12 = [[0; 0]] /\ arraySizeY grid12 = 2 /\
   packed_rowLength (gridSizeY grid12) = 1).
Proof.
  split_and!; try reflexivity.
  rewrite selsectCell_unfold. reflexivity.
Qed.

(** C3. Torus wraparound: on a torus grid of width W > 0 and height H > 0,
    [lldivPositive] reduces any coordinate to its nonnegative remainder,
    the reduced coordinate is in bounds, and [getCell] at any coordinate
    [(x, y)] reads the char of the cell [(x mod W, y mod H)]; in particular
    [getCell g (-1) 0 = getCell g (W-1) 0], [getCell g W 0 = getCell g 0 0]
    and [getCell g (2*W) 0 = getCell g 0 0]. *)
Theorem torus_wraparound (fuel : nat) (g : Grid) (x y : Z) :
  wfGrid g -> outOfBoundsRule g = GOL__OOBR__TORUS ->
  0 < gridSizeX g -> 0 < gridSizeY g ->
  let W := gridSizeX g in
  let H := gridSizeY g in
  (exists px py, lldivPositive x W = Ret px /\ lldivPositive y H = Ret py /\
     rem px = x mod W /\ rem py = y mod H) /\
  inBounds g (x mod W) (y mod H) /\
  (exists c, cellByte g (x mod W) (y mod H) = Some c /\
     getCell (S fuel) g x y = Ret (stateOfByte c)) /\
  getCell (S fuel) g x y = getCell (S fuel) g (x mod W) (y mod H) /\
  getCell (S fuel) g (-1) 0 = getCell (S fuel) g (W - 1) 0 /\
  getCell (S fuel) g W 0 = getCell (S fuel) g 0 0 /\
  getCell (S fuel) g (2 * W) 0 = getCell (S fuel) g 0 0.
Proof.
  intros Hwf Hrule HX HY W H.
  destruct (selsectCell_torus fuel g x y Hwf Hrule HX HY) as [Hin Hsel].
  destruct (cellByte_inBounds g _ _ Hwf Hin) as (row & c & _ & _ & _ & Hc).
  split_and!.
  - exists {| quot := x / W; rem := x mod W |}, {| quot := y / H; rem := y mod H |}.
    unfold W, H. rewrite !lldivPositive_pos by done. done.
  - done.
  - exists c. split; [done|]. by eapply getCell_at.
  - by apply getCell_torus.
  - rewrite (getCell_torus fuel g (-1) 0) by done. fold W H.
    replace (-1 mod W) with (W - 1); [|apply Z.mod_unique_pos with (-1); lia].
    rewrite Z.mod_0_l by lia. done.
  - rewrite (getCell_torus fuel g W 0) by done. fold W H.
    by rewrite Z.mod_same, Z.mod_0_l by lia.
  - rewrite (getCell_torus fuel g (2 * W) 0) by done. fold W H.
    by rewrite Z.mod_mul, Z.mod_0_l by lia.
Qed.

Lemma torus_wraparound_witness :
  wfGrid (emptyGrid 3 4 GOL__OOBR__TORUS) /\
  getCell 1 (emptyGrid 3 4 GOL__OOBR__TORUS) (-7) 9 =
    getCell 1 (emptyGrid 3 4 GOL__OOBR__TORUS) 2 1 /\
  getCell 1 (emptyGrid 3 4 GOL__OOBR__TORUS) 6 0 =
    getCell 1 (emptyGrid 3 4 GOL__OOBR__TORUS) 0 0.
Proof.
  assert (Hwf : wfGrid (emptyGrid 3 4 GOL__OOBR__TORUS)) by (apply emptyGrid_wf; lia).
  pose proof (torus_wraparound 0 (emptyGrid 3 4 GOL__OOBR__TORUS) (-7) 9
                Hwf eq_refl ltac:(simpl; lia) ltac:(simpl; lia))
    as (_ & _ & _ & Hred & _ & _ & Hwrap).
  split; [exact Hwf|]. split; [exact Hred|exact Hwrap].
Defined.

(** C4. Read-after-write: on a grid and an in-bounds coordinate,
    [setCell] with On succeeds (error code 0) and [getCell] then returns
    On; [setCell] with Off succeeds and [getCell] then returns Off. *)
Theorem read_after_write (fuel : nat) (g : Grid) (x y : Z) :
  wfGrid g -> inBounds g x y ->
  (exists g', setCell fuel g x y GOL__CELL_STATE__ON = Ret (g', 0) /\
              getCell fuel g' x y = Ret GOL__CELL_STATE__ON) /\
  (exists g', setCell fuel g x y GOL__CELL_STATE__OFF = Ret (g', 0) /\
              getCell fuel g' x y = Ret GOL__CELL_STATE__OFF).
Proof.
  intros Hwf Hin. split.
  - destruct (setCell_spec fuel g x y GOL__CELL_STATE__ON Hwf Hin ltac:(by right))
      as (g' & Hset & _ & _ & Hget & _). eauto.
  - destruct (setCell_spec fuel g x y GOL__CELL_STATE__OFF Hwf Hin ltac:(by left))
      as (g' & Hset & _ & _ & Hget & _). eauto.
Qed.

Lemma read_after_write_witness :
  wfGrid blinkerGrid /\ inBounds blinkerGrid 1 1 /\
  (exists g', setCell 0 blinkerGrid 1 1 GOL__CELL_STATE__OFF = Ret (g', 0) /\
              getCell 0 g' 1 1 = Ret GOL__CELL_STATE__OFF).
Proof.
  assert (Hwf : wfGrid blinkerGrid) by apply blinkerGame_wf.
  assert (Hin : inBounds blinkerGrid 1 1) by (unfold inBounds; simpl; lia).
  split; [exact Hwf|]. split; [exact Hin|].
  exact (proj2 (read_after_write 0 blinkerGrid 1 1 Hwf Hin)).
Defined.

(** C5 as stated fails under the torus rule: on a created 2 by 2 torus
    grid, [setCell] at the out-of-bounds coordinate (2, 0) returns error
    code 0 and turns the cell (0, 0) On. *)
Lemma torus_set_out_of_bounds_writes :
  createGrid allocAll 2 2 GOL__OOBR__TORUS = Ret (Some torusGrid22) /\
  ~ inBounds torusGrid22 2 0 /\
  setCell 1 torusGrid22 2 0 GOL__CELL_STATE__ON = Ret (putByte torusGrid22 0 0 1, 0) /\
  setCell 1 torusGrid22 2 0 GOL__CELL_STATE__ON <> Ret (torusGrid22, 1) /\
  getCell 1 torusGrid22 0 0 = Ret GOL__CELL_STATE__OFF /\
  getCell 1 (putByte torusGrid22 0 0 1) 0 0 = Ret GOL__CELL_STATE__ON.
Proof.
  split_and!; try reflexivity.
  - unfold inBounds. simpl. lia.
  - discriminate.
Qed.

(** C5, amended. For an out-of-bounds coordinate: under the rules AllOff
    and AllOn (any rule but the torus), [setCell] returns error code 1 and
    the grid is unchanged; under the torus rule on a grid with cells,
    [setCell] acts on the in-bounds cell at the coordinates reduced modulo
    the grid sizes, as [getCell] does. *)
Theorem setCell_out_of_bounds (fuel : nat) (g : Grid) (x y newState : Z) :
  ~ inBounds g x y ->
  (outOfBoundsRule g = GOL__OOBR__ALL_OFF \/ outOfBoundsRule g = GOL__OOBR__ALL_ON ->
   setCell fuel g x y newState = Ret (g, 1)) /\
  (wfGrid g -> outOfBoundsRule g = GOL__OOBR__TORUS ->
   0 < gridSizeX g -> 0 < gridSizeY g ->
   inBounds g (x mod gridSizeX g) (y mod gridSizeY g) /\
   setCell (S fuel) g x y newState =
   setCell (S fuel) g (x mod gridSizeX g) (y mod gridSizeY g) newState).
Proof.
  intros Hout. split.
  - intros Hrule. unfold setCell.
    rewrite selsectCell_outside; [done|done|].
    destruct Hrule as [-> | ->]; done.
  - intros Hwf Hrule HX HY.
    destruct (selsectCell_torus fuel g x y Hwf Hrule HX HY) as [Hin Hsel].
    split; [done|].
    destruct (cellByte_inBounds g _ _ Hwf Hin) as (row & c & _ & _ & _ & Hc).
    rewrite (setCell_at _ _ _ _ _ _ c _ Hsel Hc).
    symmetry. apply setCell_at; [|done].
    by apply selsectCell_inBounds.
Qed.

Lemma setCell_out_of_bounds_witness :
  ~ inBounds blinkerGrid 5 (-1) /\
  setCell 0 blinkerGrid 5 (-1) GOL__CELL_STATE__ON = Ret (blinkerGrid, 1).
Proof.
  assert (Hout : ~ inBounds blinkerGrid 5 (-1)) by (unfold inBounds; simpl; lia).
  split; [exact Hout|].
  exact (proj1 (setCell_out_of_bounds 0 blinkerGrid 5 (-1) GOL__CELL_STATE__ON Hout)
               (or_introl eq_refl)).
Defined.

(** C6, at the failing input. [createGrid( 0, 0, GOL__OOBR__TORUS )]
    succeeds, and on the grid it returns [getCell( g, 0, 0 )] divides by
    zero in [lldivPositive]: the read has no defined result, with any
    recursion budget. *)
Theorem getCell_empty_torus_undefined (fuel : nat) :
  createGrid allocAll 0 0 GOL__OOBR__TORUS = Ret (Some (emptyGrid 0 0 GOL__OOBR__TORUS)) /\
  lldivPositive 0 (gridSizeX (emptyGrid 0 0 GOL__OOBR__TORUS)) = Undefined /\
  getCell fuel (emptyGrid 0 0 GOL__OOBR__TORUS) 0 0 = Undefined.
Proof.
  split_and!; [reflexivity|reflexivity|].
  apply getCell_torus_empty; [done|by left].
Qed.

(** C7 as stated fails under the rule AllOn: in the created 3 by 3 game
    with that rule every cell reads Off, and after one step the cell (1, 0),
    which has three neighbours outside the grid, reads On. *)
Lemma all_on_rule_births :
  createGame true allocAll allocAll 3 3 GOL__OOBR__ALL_ON = Ret (Some allOnGame33) /\
  (forall x y, inBounds (currentGrid allOnGame33) x y ->
     getCell 1 (currentGrid allOnGame33) x y = Ret GOL__CELL_STATE__OFF) /\
  exists gm', iterateGame 1 allOnGame33 = Ret gm' /\
    inBounds (currentGrid gm') 1 0 /\
    getCell 1 (currentGrid gm') 1 0 = Ret GOL__CELL_STATE__ON.
Proof.
  split_and!.
  - reflexivity.
  - intros x y [Hx Hy]. simpl in Hx, Hy.
    assert (x = 0 \/ x = 1 \/ x = 2) as [-> | [-> | ->]] by lia;
      assert (y = 0 \/ y = 1 \/ y = 2) as [-> | [-> | ->]] by lia;
      reflexivity.
  - eexists. split; [reflexivity|]. split; [|reflexivity].
    unfold inBounds. simpl. lia.
Qed.

(** C7, amended. Under the rule AllOff or the torus rule: if every cell of
    the current grid reads Off, [iterateGame] returns and every cell of the
    new current grid reads Off. *)
Theorem all_off_stays_off (fuel : nat) (gm : Game) :
  wfGame gm -> currentGridPtr gm <> PtrOther ->
  outOfBoundsRule (currentGrid gm) = GOL__OOBR__ALL_OFF \/
  outOfBoundsRule (currentGrid gm) = GOL__OOBR__TORUS ->
  (forall x y, inBounds (currentGrid gm) x y ->
     getCell (S fuel) (currentGrid gm) x y = Ret GOL__CELL_STATE__OFF) ->
  exists gm', iterateGame (S fuel) gm = Ret gm' /\
    forall x y, inBounds (currentGrid gm') x y ->
      getCell (S fuel) (currentGrid gm') x y = Ret GOL__CELL_STATE__OFF.
Proof.
  intros Hwf Hptr Hrule Hoff.
  destruct (iterateGame_spec fuel gm Hwf Hptr)
    as (gm' & Hrun & _ & _ & _ & _ & Hsh & Hcells).
  destruct (wfGame_current gm Hwf) as (Hwc & _ & _ & _).
  exists gm'. split; [done|].
  intros x y Hin'.
  assert (Hin : inBounds (currentGrid gm) x y).
  { eapply sameShape_inBounds; [|done]. by apply sameShape_sym. }
  assert (Hall : forall a b,
            getCell (S fuel) (currentGrid gm) a b = Ret GOL__CELL_STATE__OFF).
  { intros a b. destruct (inBounds_dec (currentGrid gm) a b) as [Hab|Hab].
    - by apply Hoff.
    - destruct Hrule as [Hr|Hr].
      + by apply getCell_outside_ALL_OFF.
      + destruct Hin as [? ?]. rewrite getCell_torus by (done || lia).
        apply Hoff. split; apply Z.mod_pos_bound; lia. }
  rewrite Hcells by done. unfold nextState.
  by rewrite Hall, onNeighbours_zero.
Qed.

Lemma all_off_stays_off_witness :
  wfGame torusGame33 /\
  (forall x y, inBounds (currentGrid torusGame33) x y ->
     getCell 1 (currentGrid torusGame33) x y = Ret GOL__CELL_STATE__OFF) /\
  exists gm', iterateGame 1 torusGame33 = Ret gm' /\
    forall x y, inBounds (currentGrid gm') x y ->
      getCell 1 (currentGrid gm') x y = Ret GOL__CELL_STATE__OFF.
Proof.
  assert (Hwf : wfGame torusGame33).
  { apply emptyGame_wf; [lia|lia|]. right; right; reflexivity. }
  assert (Hoff : forall x y, inBounds (currentGrid torusGame33) x y ->
                   getCell 1 (currentGrid torusGame33) x y = Ret GOL__CELL_STATE__OFF).
  { intros x y [Hx Hy]. simpl in Hx, Hy.
    assert (x = 0 \/ x = 1 \/ x = 2) as [-> | [-> | ->]] by lia;
      assert (y = 0 \/ y = 1 \/ y = 2) as [-> | [-> | ->]] by lia;
      reflexivity. }
  split; [exact Hwf|]. split; [exact Hoff|].
  exact (all_off_stays_off 0 torusGame33 Hwf ltac:(discriminate) (or_intror eq_refl) Hoff).
Defined.

(** C8. The blinker: in a game with rule AllOff whose grid is at least 3
    wide and 3 tall and whose current grid reads On exactly at (1,0),
    (1,1), (1,2), one step gives a current grid that reads On exactly at
    (0,1), (1,1), (2,1), and a second step one that reads On exactly at
    (1,0), (1,1), (1,2) again. *)
Theorem blinker_period_two (fuel : nat) (gm : Game) :
  wfGame gm -> currentGridPtr gm <> PtrOther ->
  outOfBoundsRule (currentGrid gm) = GOL__OOBR__ALL_OFF ->
  3 <= gridSizeX (currentGrid gm) -> 3 <= gridSizeY (currentGrid gm) ->
  (forall x y, inBounds (currentGrid gm) x y ->
     (getCell (S fuel) (currentGrid gm) x y = Ret GOL__CELL_STATE__ON <->
      In (x, y) blinkerA)) ->
  exists gm1 gm2,
    iterateGame (S fuel) gm = Ret gm1 /\
    iterateGame (S fuel) gm1 = Ret gm2 /\
    sameShape (currentGrid gm) (currentGrid gm1) /\
    sameShape (currentGrid gm) (currentGrid gm2) /\
    (forall x y, inBounds (currentGrid gm1) x y ->
       (getCell (S fuel) (currentGrid gm1) x y = Ret GOL__CELL_STATE__ON <->
        In (x, y) blinkerB)) /\
    (forall x y, inBounds (currentGrid gm2) x y ->
       (getCell (S fuel) (currentGrid gm2) x y = Ret GOL__CELL_STATE__ON <->
        In (x, y) blinkerA)).
Proof.
  intros Hwf Hptr Hrule HX HY Hcells.
  destruct (wfGame_current gm Hwf) as (Hwc & _ & _ & _).
  destruct (iterateGame_pattern fuel gm inBlinkerA Hwf Hptr Hrule)
    as (gm1 & Hrun1 & Hwf1 & Hptr1 & Hsh1 & Hcells1).
  { intros x y HP. unfold inBlinkerA in HP. unfold inBounds. lia. }
  { intros x y Hin. apply reads_of_pattern; [done..|].
    rewrite inBlinkerA_In. by apply Hcells. }
  pose proof Hsh1 as (HX1 & HY1 & Hr1).
  destruct (iterateGame_pattern fuel gm1 inBlinkerB Hwf1 Hptr1)
    as (gm2 & Hrun2 & Hwf2 & Hptr2 & Hsh2 & Hcells2).
  { by rewrite <- Hr1. }
  { intros x y HP. unfold inBlinkerB in HP. unfold inBounds.
    rewrite <- HX1, <- HY1. lia. }
  { intros x y Hin. rewrite Hcells1, blinkerA_step; eauto with grid. }
  exists gm1, gm2. split_and!; try done.
  - eauto with grid.
  - intros x y Hin. rewrite <- inBlinkerB_In. apply pattern_of_reads.
    rewrite Hcells1, blinkerA_step; eauto with grid.
  - intros x y Hin. rewrite <- inBlinkerA_In. apply pattern_of_reads.
    rewrite Hcells2, blinkerB_step; eauto with grid.
Qed.

Lemma blinker_period_two_witness :
  wfGame blinkerGame /\
  3 <= gridSizeX (currentGrid blinkerGame) /\
  3 <= gridSizeY (currentGrid blinkerGame) /\
  exists gm1 gm2,
    iterateGame 1 blinkerGame = Ret gm1 /\
    iterateGame 1 gm1 = Ret gm2 /\
    (forall x y, inBounds (currentGrid gm1) x y ->
       (getCell 1 (currentGrid gm1) x y = Ret GOL__CELL_STATE__ON <->
        In (x, y) blinkerB)) /\
    (forall x y, inBounds (currentGrid gm2) x y ->
       (getCell 1 (currentGrid gm2) x y = Ret GOL__CELL_STATE__ON <->
        In (x, y) blinkerA)).
Proof.
  assert (HX : 3 <= gridSizeX (currentGrid blinkerGame)) by (simpl; lia).
  assert (HY : 3 <= gridSizeY (currentGrid blinkerGame)) by (simpl; lia).
  split; [exact blinkerGame_wf|]. split; [exact HX|]. split; [exact HY|].
  destruct (blinker_period_two 0 blinkerGame blinkerGame_wf ltac:(discriminate)
              eq_refl HX HY blinkerGame_reads)
    as (gm1 & gm2 & H1 & H2 & _ & _ & HB & HA).
  exists gm1, gm2. split; [exact H1|]. split; [exact H2|].
  split; [exact HB|exact HA].
Defined.

(** C9. Every grid reachable through [createGrid], [createGame],
    [setCell], [randomizeGrid], [randomizeGame] and [iterateGame] holds
    only the chars 0 and 1, and for every in-bounds cell [getCell] returns
    the state given by bit 0 of the char of the cell, which is the char
    itself. *)
Theorem storage_chars_are_bits (fuel : nat) (g : Grid) :
  reachableGrid fuel g ->
  bytes01 g /\
  forall x y, inBounds g x y ->
    exists c, cellByte g x y = Some c /\ (c = 0 \/ c = 1) /\
      getCell fuel g x y = Ret (c_bool (Z.testbit c 0)) /\
      getCell fuel g x y = Ret c.
Proof.
  intros Hreach.
  destruct (reachableGrid_good fuel g Hreach) as [Hwf Hb].
  split; [done|].
  intros x y Hin.
  destruct (getCell_inBounds fuel g x y Hwf Hin) as (c & Hc & Hget).
  pose proof (bytes01_cellByte _ _ _ _ Hb Hc) as H01.
  destruct (stateOfByte_bit0 c H01) as [Hbit Hid].
  exists c. split_and!; try done.
  - by rewrite Hget, Hbit.
  - by rewrite Hget, Hid.
Qed.

Lemma storage_chars_are_bits_witness :
  reachableGrid 0 blinkerGrid /\ bytes01 blinkerGrid /\
  getCell 0 blinkerGrid 1 1 = Ret 1.
Proof.
  split; [exact blinkerGrid_reachable|].
  destruct (storage_chars_are_bits 0 blinkerGrid blinkerGrid_reachable) as [Hb _].
  split; [exact Hb|reflexivity].
Defined.

(** C10. Frame of a write: on a grid, for an in-bounds coordinate
    [(x, y)] and another in-bounds coordinate [(x', y')], [setCell] at
    [(x, y)] with any state returns and leaves [getCell] at [(x', y')]
    unchanged; the two cells are stored in different chars, and setting a
    cell Off overwrites the whole char of that cell with 0. *)
Theorem setCell_frame (fuel : nat) (g : Grid) (x y x' y' newState : Z) :
  wfGrid g -> inBounds g x y -> inBounds g x' y' -> (x', y') <> (x, y) ->
  (exists g' err, setCell fuel g x y newState = Ret (g', err) /\
     getCell fuel g' x' y' = getCell fuel g x' y') /\
  setCell fuel g x y GOL__CELL_STATE__OFF = Ret (putByte g x y 0, 0) /\
  (exists p p', selsectCell fuel g x y = Ret {| storageCharPtr := Some p; bitIndex := 0 |} /\
     selsectCell fuel g x' y' = Ret {| storageCharPtr := Some p'; bitIndex := 0 |} /\
     p <> p').
Proof.
  intros Hwf Hin Hin' Hne.
  destruct (setCell_inBounds fuel g x y newState Hwf Hin) as (c & Hc & Hset).
  split_and!.
  - destruct (Z.eqb_spec newState GOL__CELL_STATE__OFF) as [HOff|_];
      [|destruct (Z.eqb_spec newState GOL__CELL_STATE__ON) as [HOn|_]].
    + destruct (setCell_spec fuel g x y newState Hwf Hin ltac:(by left))
        as (g' & Hset' & _ & _ & _ & Hframe). eauto.
    + destruct (setCell_spec fuel g x y newState Hwf Hin ltac:(by right))
        as (g' & Hset' & _ & _ & _ & Hframe). eauto.
    + exists g, 2. done.
  - destruct (setCell_inBounds fuel g x y GOL__CELL_STATE__OFF Hwf Hin) as (c0 & _ & ->).
    done.
  - exists (Z.to_nat x, Z.to_nat y), (Z.to_nat x', Z.to_nat y').
    rewrite !selsectCell_inBounds by done. split_and!; try done.
    destruct Hin as [? ?], Hin' as [? ?].
    intros [= Hx Hy]. apply Hne. f_equal; lia.
Qed.

Lemma setCell_frame_witness :
  wfGrid blinkerGrid /\ inBounds blinkerGrid 1 1 /\ inBounds blinkerGrid 1 2 /\
  (exists g' err, setCell 0 blinkerGrid 1 1 GOL__CELL_STATE__OFF = Ret (g', err) /\
     getCell 0 g' 1 2 = getCell 0 blinkerGrid 1 2).
Proof.
  assert (Hwf : wfGrid blinkerGrid) by apply blinkerGame_wf.
  assert (Hin : inBounds blinkerGrid 1 1) by (unfold inBounds; simpl; lia).
  assert (Hin' : inBounds blinkerGrid 1 2) by (unfold inBounds; simpl; lia).
  split; [exact Hwf|]. split; [exact Hin|]. split; [exact Hin'|].
  exact (proj1 (setCell_frame 0 blinkerGrid 1 1 1 2 GOL__CELL_STATE__OFF
                  Hwf Hin Hin' ltac:(discriminate))).
Defined.

(** * Further properties of the code *)

(** ** The modulo functions *)

(** X1. [lldivGreater] rounds the quotient away from zero. For a nonzero
    divisor (and not [LLONG_MIN / -1]) it returns [quot] and [rem] with
    [dividend = divisor * quot + rem] and [|rem| < |divisor|]; a nonzero
    [rem] has the sign opposite to the dividend, so
    [|dividend| <= |divisor * quot|]; for a nonnegative dividend and a
    positive divisor [quot] is the ceiling of the quotient and
    [divisor * quot >= dividend]. *)
Theorem lldivGreater_away_from_zero (a d : Z) :
  d <> 0 -> ~ (a = LLONG_MIN /\ d = -1) ->
  exists r, lldivGreater a d = Ret r /\
    a = d * quot r + rem r /\
    Z.abs (rem r) < Z.abs d /\
    (rem r <> 0 -> (0 <= a <-> rem r < 0)) /\
    Z.abs a <= Z.abs (d * quot r) /\
    (0 <= a -> 0 < d -> quot r = (a + d - 1) / d /\ a <= d * quot r).
Proof.
  intros Hd Hov. unfold lldivGreater, lldiv.
  destruct (Z.eqb_spec d 0) as [|_]; [done|].
  assert (Hnov : (a =? LLONG_MIN) && (d =? -1) = false).
  { destruct (Z.eqb_spec a LLONG_MIN), (Z.eqb_spec d (-1)); try done.
    exfalso. by apply Hov. }
  rewrite Hnov. simpl.
  pose proof (Z.quot_rem' a d) as Hqr.
  pose proof (Z.rem_bound_abs a d Hd) as Habs.
  assert (Hsign : (0 <= a -> 0 <= Z.rem a d) /\ (a <= 0 -> Z.rem a d <= 0)).
  { split; intros; [by apply Z.rem_nonneg|by apply Z.rem_nonpos]. }
  destruct Hsign as [Hpos Hneg].
  destruct (Z.eqb_spec (Z.rem a d) 0) as [Hz|Hnz].
  - eexists. split; [done|]. simpl. rewrite Hz in *.
    split_and!; try lia.
    intros Ha Hdp. split; [|lia].
    apply (Z.div_unique_pos _ _ _ (d - 1)); lia.
  - destruct (Z.geb_spec a 0), (Z.geb_spec d 0), (Z.ltb_spec a 0), (Z.ltb_spec d 0);
      simpl; try lia; eexists; (split; [done|]); simpl.
    + split_and!; try lia.
      intros Ha Hdp. split; [|nia].
      apply (Z.div_unique_pos _ _ _ (Z.rem a d - 1)); lia.
    + split_and!; lia.
    + split_and!; lia.
    + split_and!; lia.
Qed.

Lemma lldivGreater_away_from_zero_witness :
  exists r, lldivGreater 7 2 = Ret r /\ quot r = 4 /\ rem r = -1.
Proof.
  destruct (lldivGreater_away_from_zero 7 2 ltac:(lia) ltac:(lia))
    as (r & Hr & _).
  exists r. split; [exact Hr|].
  vm_compute in Hr. injection Hr as <-. split; reflexivity.
Defined.



(** ** Creation *)

Lemma allocRows_forallb (a : Allocator) (n i : nat) (rowLen : Z) :
  allocRows a n i rowLen =
  if forallb (calloc_row_ok a) (seq i n)
  then Some (replicate n (replicate (Z.to_nat rowLen) 0))
  else None.
Proof.
  revert i. induction n as [|n IH]; intros i; simpl; [done|].
  destruct (calloc_row_ok a i); [|done]. simpl.
  rewrite IH. by destruct (forallb (calloc_row_ok a) (seq (S i) n)).
Qed.

(** The result of [createGrid] as a function of its arguments. *)
Lemma createGrid_result_aux (a : Allocator) (sizeX sizeY rule : Z) :
  createGrid a sizeX sizeY rule =
    (if (0 <=? sizeX) && (0 <=? sizeY) && malloc_ok a && calloc_origin_ok a &&
        forallb (calloc_row_ok a) (seq 0 (Z.to_nat sizeX))
     then Ret (Some (emptyGrid sizeX sizeY rule))
     else Ret None).
Proof.
  unfold createGrid.
  destruct (Z.ltb_spec sizeX 0), (Z.leb_spec 0 sizeX); try lia; [done|].
  destruct (Z.ltb_spec sizeY 0), (Z.leb_spec 0 sizeY); try lia; [done|].
  simpl. destruct (malloc_ok a); [|done]. simpl.
  rewrite lldivGreater_sizeof_char. simpl.
  destruct (calloc_origin_ok a); [|done]. simpl.
  rewrite allocRows_forallb.
  by destruct (forallb (calloc_row_ok a) (seq 0 (Z.to_nat sizeX))).
Qed.

(** X3. [createGrid] never has an undefined result. It returns a grid
    exactly when both sizes are nonnegative and the [malloc] of the grid,
    the [calloc] of [origin] and the [calloc] of each of the [sizeX] rows
    succeed, and [NULL] otherwise; the grid it returns has the sizes and
    the rule asked for and [sizeX] rows of [sizeY] zero chars, so every
    cell of a new grid reads Off. *)
Theorem createGrid_result (a : Allocator) (sizeX sizeY rule : Z) :
  createGrid a sizeX sizeY rule =
    (if (0 <=? sizeX) && (0 <=? sizeY) && malloc_ok a && calloc_origin_ok a &&
        forallb (calloc_row_ok a) (seq 0 (Z.to_nat sizeX))
     then Ret (Some (emptyGrid sizeX sizeY rule))
     else Ret None) /\
  forall fuel x y, inBounds (emptyGrid sizeX sizeY rule) x y ->
    getCell fuel (emptyGrid sizeX sizeY rule) x y = Ret GOL__CELL_STATE__OFF.
Proof.
  split.
  - exact (createGrid_result_aux a sizeX sizeY rule).
  - intros fuel x y Hin.
    assert (HX : 0 <= sizeX) by (destruct Hin as [Hx _]; simpl in Hx; lia).
    assert (HY : 0 <= sizeY) by (destruct Hin as [_ Hy]; simpl in Hy; lia).
    destruct (getCell_inBounds fuel _ x y (emptyGrid_wf sizeX sizeY rule HX HY) Hin)
      as (c & Hc & ->).
    unfold cellByte in Hc. simpl in Hc.
    destruct (replicate (Z.to_nat sizeX) (replicate (Z.to_nat sizeY) 0) !! Z.to_nat x)
      as [row|] eqn:Hrow; [|done].
    apply lookup_replicate in Hrow as [-> _].
    apply lookup_replicate in Hc as [-> _]. done.
Qed.


(** ** Writes *)

Lemma char_of_int_range (z : Z) : -128 <= char_of_int z < 128.
Proof.
  unfold char_of_int. pose proof (Z.mod_pos_bound (z + 128) 256 ltac:(lia)). lia.
Qed.

Lemma char_of_int_parity (z : Z) : Z.odd (char_of_int z) = Z.odd z.
Proof.
  unfold char_of_int.
  rewrite (Z.mod_eq (z + 128) 256) by lia.
  replace (z + 128 - 256 * ((z + 128) / 256) - 128)
    with (z + 2 * (- 128 * ((z + 128) / 256))) by lia.
  rewrite Z.odd_add_mul_2. done.
Qed.

Lemma lor_one_of_odd (v : Z) : Z.odd v = true -> Z.lor v 1 = v.
Proof.
  intros Hodd. apply Z.bits_inj'. intros n Hn.
  rewrite Z.lor_spec.
  destruct (Z.eq_dec n 0) as [-> |Hn0].
  - by rewrite Z.bit0_odd, Hodd.
  - change 1 with (2 ^ 0) at 1. rewrite Z.pow2_bits_eqb by lia.
    destruct (Z.eqb_spec 0 n); [lia|]. apply orb_false_r.
Qed.

(** Setting On a char that was set On stores the same char again. *)
Lemma written_on_twice (c : Z) :
  char_of_int (Z.lor (char_of_int (Z.lor c 1)) 1) = char_of_int (Z.lor c 1).
Proof.
  rewrite lor_one_of_odd.
  - apply char_of_int_small, char_of_int_range.
  - rewrite char_of_int_parity. apply lor_one_odd.
Qed.

Lemma withOrigin_withOrigin (g : Grid) (o1 o2 : list (list Z)) :
  withOrigin (withOrigin g o1) o2 = withOrigin g o2.
Proof. reflexivity. Qed.

Lemma putByte_putByte_same (g : Grid) (x y v v' : Z) :
  putByte (putByte g x y v) x y v' = putByte g x y v'.
Proof.
  unfold putByte.
  destruct (origin g !! Z.to_nat x) as [row|] eqn:Hrow; [|by rewrite Hrow].
  simpl. rewrite list_lookup_insert_eq by (eapply lookup_lt_Some; eauto).
  rewrite withOrigin_withOrigin. f_equal.
  by rewrite !list_insert_insert_eq.
Qed.

Lemma putByte_putByte_other (g : Grid) (x y v x' y' v' : Z) :
  0 <= x -> 0 <= y -> 0 <= x' -> 0 <= y' -> (x', y') <> (x, y) ->
  putByte (putByte g x y v) x' y' v' = putByte (putByte g x' y' v') x y v.
Proof.
  intros Hx Hy Hx' Hy' Hne. unfold putByte.
  destruct (decide (x' = x)) as [-> |Hxx].
  - assert (Hj : Z.to_nat y <> Z.to_nat y').
    { intros Heq. apply Hne. f_equal. lia. }
    destruct (origin g !! Z.to_nat x) as [row|] eqn:Hrow; [|by rewrite Hrow].
    simpl. rewrite !list_lookup_insert_eq by (eapply lookup_lt_Some; eauto).
    rewrite !withOrigin_withOrigin. f_equal.
    rewrite !list_insert_insert_eq. f_equal.
    by apply list_insert_insert_ne.
  - assert (Hi : Z.to_nat x <> Z.to_nat x') by lia.
    destruct (origin g !! Z.to_nat x) as [row|] eqn:Hrow;
      destruct (origin g !! Z.to_nat x') as [row'|] eqn:Hrow'; simpl;
      rewrite ?list_lookup_insert_ne by done;
      rewrite ?Hrow, ?Hrow'; try done.
    rewrite !withOrigin_withOrigin. f_equal.
    by apply list_insert_insert_ne.
Qed.

(** A call of [setCell] at an in-bounds cell, as a function on grids. *)
Lemma setCell__inBounds (fuel : nat) (g : Grid) (x y newState : Z) :
  wfGrid g -> inBounds g x y ->
  exists c, cellByte g x y = Some c /\
    setCell_ fuel g x y newState = Ret (putOpt g x y (writtenByte newState c)).
Proof.
  intros Hwf Hin.
  destruct (setCell_inBounds fuel g x y newState Hwf Hin) as (c & Hc & Hset).
  exists c. split; [done|]. unfold setCell_, writtenByte. rewrite Hset.
  destruct (newState =? GOL__CELL_STATE__OFF); [done|].
  by destruct (newState =? GOL__CELL_STATE__ON).
Qed.

Lemma putOpt_wf (g : Grid) (x y : Z) (v : option Z) :
  wfGrid g -> wfGrid (putOpt g x y v).
Proof. destruct v; simpl; [apply putByte_wf|done]. Qed.

Lemma putOpt_inBounds (g : Grid) (x y : Z) (v : option Z) (a b : Z) :
  inBounds g a b -> inBounds (putOpt g x y v) a b.
Proof.
  destruct v; simpl; [|done].
  pose proof (putByte_shape g x y z) as (HX & HY & _).
  unfold inBounds. by rewrite HX, HY.
Qed.

(** X5. An invalid new state: [setCell] with a state that is neither Off
    nor On returns error code 2 at an in-bounds cell and leaves the grid as
    it is; at an out-of-bounds cell, without the torus rule, the
    out-of-bounds error code 1 comes first. *)
Theorem setCell_invalid_state (fuel : nat) (g : Grid) (x y newState : Z) :
  wfGrid g ->
  newState <> GOL__CELL_STATE__OFF -> newState <> GOL__CELL_STATE__ON ->
  (inBounds g x y -> setCell fuel g x y newState = Ret (g, 2)) /\
  (~ inBounds g x y -> outOfBoundsRule g <> GOL__OOBR__TORUS ->
   setCell fuel g x y newState = Ret (g, 1)).
Proof.
  intros Hwf Hoff Hon. split.
  - intros Hin.
    destruct (setCell_inBounds fuel g x y newState Hwf Hin) as (c & _ & ->).
    destruct (Z.eqb_spec newState GOL__CELL_STATE__OFF); [done|].
    by destruct (Z.eqb_spec newState GOL__CELL_STATE__ON).
  - intros Hout Hrule. unfold setCell.
    by rewrite selsectCell_outside.
Qed.

Lemma setCell_invalid_state_witness :
  wfGrid blinkerGrid /\
  setCell 0 blinkerGrid 1 1 GOL__CELL_STATE__INVALID = Ret (blinkerGrid, 2).
Proof.
  assert (Hwf : wfGrid blinkerGrid) by apply blinkerGame_wf.
  split; [exact Hwf|].
  apply (setCell_invalid_state 0 blinkerGrid 1 1 GOL__CELL_STATE__INVALID Hwf);
    [discriminate|discriminate|].
  unfold inBounds. simpl. lia.
Defined.

(** X6. [setCell] is idempotent: at an in-bounds cell, a second call with
    the same state leaves the grid exactly as the first call left it. *)
Theorem setCell_idempotent (fuel : nat) (g : Grid) (x y newState : Z) :
  wfGrid g -> inBounds g x y ->
  exists g1, setCell_ fuel g x y newState = Ret g1 /\
             setCell_ fuel g1 x y newState = Ret g1.
Proof.
  intros Hwf Hin.
  destruct (setCell__inBounds fuel g x y newState Hwf Hin) as (c & Hc & Hset).
  eexists. split; [exact Hset|].
  destruct (setCell__inBounds fuel _ x y newState
              (putOpt_wf g x y (writtenByte newState c) Hwf)
              (putOpt_inBounds g x y (writtenByte newState c) _ _ Hin))
    as (c1 & Hc1 & ->).
  f_equal. unfold writtenByte in *.
  destruct (newState =? GOL__CELL_STATE__OFF); simpl in *.
  { apply putByte_putByte_same. }
  destruct (newState =? GOL__CELL_STATE__ON); simpl in *; [|done].
  rewrite cellByte_putByte_same in Hc1 by done. injection Hc1 as <-.
  rewrite written_on_twice. apply putByte_putByte_same.
Qed.

Lemma setCell_idempotent_witness :
  wfGrid blinkerGrid /\ inBounds blinkerGrid 2 2 /\
  exists g1, setCell_ 0 blinkerGrid 2 2 GOL__CELL_STATE__ON = Ret g1 /\
             setCell_ 0 g1 2 2 GOL__CELL_STATE__ON = Ret g1.
Proof.
  assert (Hwf : wfGrid blinkerGrid) by apply blinkerGame_wf.
  assert (Hin : inBounds blinkerGrid 2 2) by (unfold inBounds; simpl; lia).
  split; [exact Hwf|]. split; [exact Hin|].
  exact (setCell_idempotent 0 blinkerGrid 2 2 GOL__CELL_STATE__ON Hwf Hin).
Defined.

(** X7. Writes to two different in-bounds cells commute: the two orders
    of the calls of [setCell] give the same grid, whatever the states. *)
Theorem setCell_commute (fuel : nat) (g : Grid) (x y s x' y' s' : Z) :
  wfGrid g -> inBounds g x y -> inBounds g x' y' -> (x', y') <> (x, y) ->
  exists g2,
    (let! g1 := setCell_ fuel g x y s in setCell_ fuel g1 x' y' s') = Ret g2 /\
    (let! g1 := setCell_ fuel g x' y' s' in setCell_ fuel g1 x y s) = Ret g2.
Proof.
  intros Hwf Hin Hin' Hne.
  destruct (setCell__inBounds fuel g x y s Hwf Hin) as (c & Hc & Hset).
  destruct (setCell__inBounds fuel g x' y' s' Hwf Hin') as (c' & Hc' & Hset').
  destruct (setCell__inBounds fuel _ x' y' s'
              (putOpt_wf g x y (writtenByte s c) Hwf)
              (putOpt_inBounds g x y (writtenByte s c) _ _ Hin')) as (d' & Hd' & Hset2).
  destruct (setCell__inBounds fuel _ x y s
              (putOpt_wf g x' y' (writtenByte s' c') Hwf)
              (putOpt_inBounds g x' y' (writtenByte s' c') _ _ Hin)) as (d & Hd & Hset2').
  destruct Hin as [? ?], Hin' as [? ?].
  assert (d' = c').
  { destruct (writtenByte s c); simpl in Hd'; [|congruence].
    rewrite cellByte_putByte_other in Hd' by (lia || done). congruence. }
  assert (d = c).
  { destruct (writtenByte s' c'); simpl in Hd; [|congruence].
    rewrite cellByte_putByte_other in Hd by (lia || congruence). congruence. }
  subst d d'.
  eexists. rewrite Hset, Hset'. simpl. rewrite Hset2, Hset2'.
  split; [reflexivity|]. f_equal.
  destruct (writtenByte s c), (writtenByte s' c'); simpl; try done.
  symmetry. apply putByte_putByte_other; lia || done.
Qed.

Lemma setCell_commute_witness :
  wfGrid blinkerGrid /\ inBounds blinkerGrid 1 1 /\ inBounds blinkerGrid 3 4 /\
  exists g2,
    (let! g1 := setCell_ 0 blinkerGrid 1 1 GOL__CELL_STATE__OFF in
     setCell_ 0 g1 3 4 GOL__CELL_STATE__ON) = Ret g2 /\
    (let! g1 := setCell_ 0 blinkerGrid 3 4 GOL__CELL_STATE__ON in
     setCell_ 0 g1 1 1 GOL__CELL_STATE__OFF) = Ret g2.
Proof.
  assert (Hwf : wfGrid blinkerGrid) by apply blinkerGame_wf.
  assert (Hin : inBounds blinkerGrid 1 1) by (unfold inBounds; simpl; lia).
  assert (Hin' : inBounds blinkerGrid 3 4) by (unfold inBounds; simpl; lia).
  split; [exact Hwf|]. split; [exact Hin|]. split; [exact Hin'|].
  exact (setCell_commute 0 blinkerGrid 1 1 GOL__CELL_STATE__OFF 3 4 GOL__CELL_STATE__ON
           Hwf Hin Hin' ltac:(discriminate)).
Defined.

(** X8. Read-after-write on a torus, at any coordinate: on a torus grid
    with cells, [setCell] at any [(x, y)], in bounds or not, with Off or On
    returns error code 0, and [getCell] at the same [(x, y)] then returns
    that state. *)
Theorem torus_read_after_write (fuel : nat) (g : Grid) (x y newState : Z) :
  wfGrid g -> outOfBoundsRule g = GOL__OOBR__TORUS ->
  0 < gridSizeX g -> 0 < gridSizeY g ->
  newState = GOL__CELL_STATE__OFF \/ newState = GOL__CELL_STATE__ON ->
  exists g', setCell (S fuel) g x y newState = Ret (g', 0) /\
             getCell (S fuel) g' x y = Ret newState.
Proof.
  intros Hwf Hrule HX HY Hs.
  destruct (selsectCell_torus fuel g x y Hwf Hrule HX HY) as [Hin Hsel].
  destruct (cellByte_inBounds g _ _ Hwf Hin) as (row & c & _ & _ & _ & Hc).
  destruct (setCell_spec (S fuel) g _ _ newState Hwf Hin Hs)
    as (g' & Hset & Hwf' & (HsX & HsY & HsR) & Hget & _).
  exists g'. split.
  - rewrite (setCell_at _ _ _ _ _ _ c _ Hsel Hc).
    rewrite <- Hset. symmetry. apply setCell_at; [|done].
    by apply selsectCell_inBounds.
  - rewrite getCell_torus by (done || congruence || lia).
    by rewrite <- HsX, <- HsY.
Qed.

Lemma torus_read_after_write_witness :
  wfGrid torusGrid22 /\
  exists g', setCell 1 torusGrid22 (-1) 5 GOL__CELL_STATE__ON = Ret (g', 0) /\
             getCell 1 g' (-1) 5 = Ret GOL__CELL_STATE__ON.
Proof.
  assert (Hwf : wfGrid torusGrid22) by (apply emptyGrid_wf; lia).
  split; [exact Hwf|].
  exact (torus_read_after_write 0 torusGrid22 (-1) 5 GOL__CELL_STATE__ON Hwf eq_refl
           ltac:(simpl; lia) ltac:(simpl; lia) (or_intror eq_refl)).
Defined.

(** ** Reads *)

(** X9. Reads are total on grids with cells: on a grid with one of the
    three rules that is not a torus without cells, [getCell] at any
    coordinate returns Off or On; outside the grid it returns Off under
    AllOff and On under AllOn, whatever the grid holds. *)
Theorem getCell_total (fuel : nat) (g : Grid) (x y : Z) :
  wfGrid g -> validRule (outOfBoundsRule g) ->
  (outOfBoundsRule g = GOL__OOBR__TORUS -> 0 < gridSizeX g /\ 0 < gridSizeY g) ->
  (getCell (S fuel) g x y = Ret GOL__CELL_STATE__OFF \/
   getCell (S fuel) g x y = Ret GOL__CELL_STATE__ON) /\
  (~ inBounds g x y -> outOfBoundsRule g = GOL__OOBR__ALL_OFF ->
   getCell (S fuel) g x y = Ret GOL__CELL_STATE__OFF) /\
  (~ inBounds g x y -> outOfBoundsRule g = GOL__OOBR__ALL_ON ->
   getCell (S fuel) g x y = Ret GOL__CELL_STATE__ON).
Proof.
  intros Hwf Hrule Htorus. split_and!.
  - by apply getCell_defined.
  - intros Hout Hr. by apply getCell_outside_ALL_OFF.
  - intros Hout Hr. by apply getCell_outside_ALL_ON.
Qed.

Lemma getCell_total_witness :
  wfGrid blinkerGrid /\
  getCell 1 blinkerGrid (-1) (-1) = Ret GOL__CELL_STATE__OFF.
Proof.
  assert (Hwf : wfGrid blinkerGrid) by apply blinkerGame_wf.
  split; [exact Hwf|].
  apply (getCell_total 0 blinkerGrid (-1) (-1) Hwf (or_introl eq_refl)
           ltac:(discriminate)); [|reflexivity].
  unfold inBounds. simpl. lia.
Defined.

(** X10. A rule that is none of the three: outside the grid [getCell]
    returns [GOL__CELL_STATE__INVALID]. *)
Theorem getCell_invalid_rule (fuel : nat) (g : Grid) (x y : Z) :
  ~ validRule (outOfBoundsRule g) -> ~ inBounds g x y ->
  getCell fuel g x y = Ret GOL__CELL_STATE__INVALID.
Proof.
  unfold validRule. intros Hrule Hout. unfold getCell.
  rewrite selsectCell_outside by tauto. simpl.
  destruct (Z.eqb_spec (outOfBoundsRule g) GOL__OOBR__ALL_OFF); [tauto|].
  destruct (Z.eqb_spec (outOfBoundsRule g) GOL__CELL_STATE__ON); [|done].
  exfalso. apply Hrule. right. by left.
Qed.

Lemma getCell_invalid_rule_witness :
  createGrid allocAll 2 2 3 = Ret (Some (emptyGrid 2 2 3)) /\
  getCell 0 (emptyGrid 2 2 3) 2 0 = Ret GOL__CELL_STATE__INVALID.
Proof.
  split; [reflexivity|].
  apply (getCell_invalid_rule 0 (emptyGrid 2 2 3) 2 0).
  - unfold validRule. simpl. intros [H|[H|H]]; discriminate H.
  - unfold inBounds. simpl. lia.
Defined.

Lemma selsectCell_layout_witness :
  createGrid allocAll 5 5 GOL__OOBR__ALL_OFF = Ret (Some (emptyGrid 5 5 GOL__OOBR__ALL_OFF)) /\
  selsectCell 0 (emptyGrid 5 5 GOL__OOBR__ALL_OFF) 2 3 =
    Ret {| storageCharPtr := Some (2%nat, 3%nat); bitIndex := 0 |}.
Proof.
  split; [reflexivity|].
  exact (proj1 (selsectCell_layout 0 allocAll 5 5 GOL__OOBR__ALL_OFF
                  (emptyGrid 5 5 GOL__OOBR__ALL_OFF) 2 3 eq_refl
                  ltac:(unfold inBounds; simpl; lia))).
Defined.

Lemma selsectCell_fuel_witness :
  selsectCell 7 torusGrid22 (-3) 9 = selsectCell 1 torusGrid22 (-3) 9 /\
  selsectCell 1 torusGrid22 (-3) 9 <> Diverges.
Proof.
  exact (selsectCell_fuel 6 torusGrid22 (-3) 9 ltac:(simpl; lia) ltac:(simpl; lia)).
Defined.

(** ** [randomizeGrid] *)

(** [rand() % 2] is nonzero exactly for an odd value, of either sign. *)
Lemma truth_rem_2 (r : Z) : truth (Z.rem r 2) = Z.odd r.
Proof.
  pose proof (Z.quot_rem' r 2) as Hqr.
  pose proof (Z.rem_bound_abs r 2 ltac:(lia)) as Habs.
  rewrite Hqr at 2. rewrite Z.add_comm, Z.odd_add_mul_2.
  unfold truth.
  assert (Z.rem r 2 = -1 \/ Z.rem r 2 = 0 \/ Z.rem r 2 = 1) as [-> |[-> | ->]] by lia;
    reflexivity.
Qed.

Section Randomize.

Variables (fuel : nat) (rand : nat -> Z) (g : Grid) (k : nat).
Hypothesis Hwf : wfGrid g.

(** The draw of [rand] that decides the cell [(x, y)]. *)
Let draw (x y : Z) : nat := (k + Z.to_nat (x * gridSizeY g + y))%nat.

Let filled (i j : Z) (s : Grid * nat) : Prop :=
  wfGrid s.1 /\ sameShape g s.1 /\ s.2 = draw i j /\
  forall x y, inBounds g x y -> x < i \/ (x = i /\ y < j) ->
    getCell fuel s.1 x y = Ret (stateOfDraw (rand (draw x y))).

Lemma randomizeCell_filled (i j : Z) (s : Grid * nat) :
  inBounds g i j -> filled i j s ->
  exists s', randomizeCell fuel rand i j s = Ret s' /\ filled i (j + 1) s'.
Proof.
  intros Hin (Hwfs & Hsh & Hk & Hcells).
  assert (Hst : stateOfDraw (rand s.2) = GOL__CELL_STATE__OFF \/
                stateOfDraw (rand s.2) = GOL__CELL_STATE__ON).
  { unfold stateOfDraw. destruct (truth _); auto. }
  destruct (setCell_spec fuel s.1 i j _ Hwfs (sameShape_inBounds _ _ _ _ Hsh Hin) Hst)
    as (g' & Hset & Hwf' & Hsh' & Hget & Hframe).
  exists (g', S s.2). split.
  - unfold randomizeCell. unfold stateOfDraw in Hset.
    destruct (truth (Z.rem (rand s.2) 2)); rewrite Hset; done.
  - refine (conj _ (conj _ (conj _ _))); simpl.
    + done.
    + by eapply sameShape_trans.
    + rewrite Hk. unfold draw. destruct Hin as [? ?].
      assert (0 <= i * gridSizeY g) by nia.
      replace (i * gridSizeY g + (j + 1)) with (i * gridSizeY g + j + 1) by lia.
      rewrite (Z2Nat.inj_add _ 1) by lia. simpl. lia.
    + intros x y Hxy Hlt.
      destruct (decide ((x, y) = (i, j))) as [[= -> ->]|Hne].
      * by rewrite Hget, Hk.
      * rewrite Hframe by (done || by eapply sameShape_inBounds).
        apply Hcells; [done|].
        assert (~ (x = i /\ y = j)) by (intros [-> ->]; done). lia.
Qed.

Lemma randomizeGrid_filled :
  exists s', randomizeGrid fuel rand (g, k) = Ret s' /\
    filled (gridSizeX g) 0 s'.
Proof.
  pose proof Hwf as (HX & HY & _).
  unfold randomizeGrid. simpl fst.
  apply (forRange_invariant _ (fun i s => filled i 0 s)); [done| |].
  - refine (conj _ (conj _ (conj _ _))); simpl.
    + done.
    + by unfold sameShape.
    + unfold draw. rewrite Z.mul_0_l. simpl. lia.
    + intros x y [? ?] ?. lia.
  - intros i s Hi Hinv.
    destruct (forRange_invariant
                (fun j s2 => randomizeCell fuel rand i j s2)
                (fun j s => filled i j s)
                0 (gridSizeY g) s HY Hinv) as (s' & Hrow & Hfin).
    + intros j u Hj Hu. apply randomizeCell_filled; [|done]. split; lia.
    + exists s'. split; [done|].
      destruct Hfin as (Hwf' & Hsh' & Hk' & Hcells).
      refine (conj _ (conj _ (conj _ _))); try done.
      * rewrite Hk'. unfold draw. f_equal. f_equal. lia.
      * intros x y Hxy Hlt. apply Hcells; [done|].
        destruct Hxy as [? ?]. lia.
Qed.

End Randomize.

(** X13. [randomizeGrid] on a grid returns; it draws [rand] once per cell,
    [gridSizeX * gridSizeY] times in all, row by row; the cell [(x, y)] is
    decided by the draw number [x * gridSizeY + y] and reads Off when that
    value is odd, On when it is even; the sizes and the rule are kept. *)
Theorem randomizeGrid_cells (fuel : nat) (rand : nat -> Z) (g : Grid) (k : nat) :
  wfGrid g ->
  exists g' k', randomizeGrid fuel rand (g, k) = Ret (g', k') /\
    wfGrid g' /\ sameShape g g' /\
    k' = (k + Z.to_nat (gridSizeX g * gridSizeY g))%nat /\
    forall x y, inBounds g x y ->
      getCell fuel g' x y =
      Ret (if Z.odd (rand (k + Z.to_nat (x * gridSizeY g + y))%nat)
           then GOL__CELL_STATE__OFF else GOL__CELL_STATE__ON).
Proof.
  intros Hwf.
  destruct (randomizeGrid_filled fuel rand g k Hwf)
    as ([g' k'] & Hrun & Hwf' & Hsh & Hk & Hcells).
  simpl in *. exists g', k'. split_and!; try done.
  - rewrite Hk. f_equal. f_equal. lia.
  - intros x y Hin. rewrite Hcells; [|done|destruct Hin as [? ?]; lia].
    f_equal. unfold stateOfDraw. by rewrite truth_rem_2.
Qed.

Lemma randomizeGrid_cells_witness :
  wfGrid blinkerGrid /\
  exists g' k', randomizeGrid 0 Z.of_nat (blinkerGrid, 3%nat) = Ret (g', k') /\
    k' = 28%nat /\ getCell 0 g' 1 1 = Ret GOL__CELL_STATE__OFF.
Proof.
  assert (Hwf : wfGrid blinkerGrid) by apply blinkerGame_wf.
  split; [exact Hwf|].
  destruct (randomizeGrid_cells 0 Z.of_nat blinkerGrid 3 Hwf)
    as (g' & k' & Hrun & _ & _ & Hk & Hcells).
  exists g', k'. split; [exact Hrun|]. split; [exact Hk|].
  exact (Hcells 1 1 ltac:(unfold inBounds; simpl; lia)).
Defined.

(** ** Printing *)

Lemma printAllInChar_sign (c : Z) (options : PrintOptions) (out : list Z) :
  printAllInChar c options out = Ret (out ++ [signOfByte options c]).
Proof.
  unfold printAllInChar, signOfByte, putc, truth.
  change (char_of_int sizeof_char) with 1. unfold forRange. simpl.
  by destruct (Z.eqb_spec c 0).
Qed.

(** X14. [printOneInChar] and [printAllInChar] print opposite signs: for
    bit index 0, [printOneInChar] prints the Off sign for a nonzero char
    and the On sign for a zero char, where [printAllInChar] prints the On
    sign and the Off sign; for any other bit index of type [char],
    [printOneInChar] prints nothing and returns error code 1. *)
Theorem printOneInChar_inverted (c bitIndex : Z) (options : PrintOptions) (out : list Z) :
  -128 <= bitIndex < 128 ->
  (bitIndex <> 0 -> printOneInChar c bitIndex options out = (out, 1)) /\
  printOneInChar c 0 options out =
    (out ++ [if c =? 0 then signForOn options else signForOff options], 0) /\
  printAllInChar c options out =
    Ret (out ++ [if c =? 0 then signForOff options else signForOn options]).
Proof.
  intros Hb. split_and!.
  - intros Hnz. unfold printOneInChar, size_t_of, sizeof_char.
    destruct (Z.geb_spec (bitIndex mod 2 ^ 64) 1) as [|Hlt]; [done|].
    exfalso.
    pose proof (Z.mod_pos_bound bitIndex (2 ^ 64) ltac:(lia)) as Hm.
    assert (Hz : bitIndex mod 2 ^ 64 = 0) by lia.
    apply Z.mod_divide in Hz as [q Hq]; lia.
  - unfold printOneInChar, putc, truth. simpl.
    by destruct (Z.eqb_spec c 0).
  - apply printAllInChar_sign.
Qed.

Lemma printOneInChar_inverted_witness :
  printOneInChar 1 (-1) {| signForOff := 46; signForOn := 79 |} [] = ([], 1) /\
  printOneInChar 1 0 {| signForOff := 46; signForOn := 79 |} [] = ([46], 0).
Proof.
  destruct (printOneInChar_inverted 1 (-1) {| signForOff := 46; signForOn := 79 |} []
              ltac:(lia)) as (Herr & Hone & _).
  split; [exact (Herr ltac:(lia))|exact Hone].
Defined.

Section PrintGrid.

Variables (g : Grid) (options : PrintOptions).
Hypothesis Hwf : wfGrid g.
Hypothesis HsizeY : gridSizeY g <= LLONG_MAX.

(** A row is printed as the signs of its chars, then a newline. *)
Lemma printRow_signs (x : Z) (row : list Z) (out : list Z) :
  0 <= x -> origin g !! Z.to_nat x = Some row ->
  printRow g x options out =
  Ret (out ++ (signOfByte options <$> row) ++ [newline]).
Proof.
  intros Hx Hrow.
  pose proof Hwf as (HX & HY & Hlen & Hrows).
  pose proof (proj1 (Forall_lookup _ _) Hrows _ _ Hrow) as Hrl. simpl in Hrl.
  unfold printRow. rewrite Hrow, lldiv_sizeof_char. simpl.
  assert (Hq : size_t_of (gridSizeY g) = gridSizeY g).
  { unfold size_t_of. apply Z.mod_small. unfold LLONG_MAX in HsizeY. lia. }
  rewrite Hq.
  destruct (forRange_invariant
              (fun j o => match row !! Z.to_nat j with
                          | None => Undefined
                          | Some c => printAllInChar c options o
                          end)
              (fun j o => o = out ++ (signOfByte options <$> take (Z.to_nat j) row))
              0 (gridSizeY g) out HY) as (o1 & Hrun & Ho1).
  - simpl. by rewrite app_nil_r.
  - intros j o Hj ->.
    destruct (lookup_lt_is_Some_2 row (Z.to_nat j)) as [c Hc]; [lia|].
    rewrite Hc, printAllInChar_sign. eexists. split; [done|].
    replace (Z.to_nat (j + 1)) with (S (Z.to_nat j)) by lia.
    rewrite (take_S_r _ _ _ Hc), fmap_app, app_assoc. done.
  - rewrite Hrun. simpl.
    change (char_of_int 0) with 0. unfold forRange. simpl.
    rewrite Ho1, take_ge by lia. unfold putc. by rewrite app_assoc.
Qed.

(** The grid is printed as a newline, its rows in order, and a newline. *)
Lemma printGrid_signs (out : list Z) :
  arraySizeX g = gridSizeX g ->
  printGrid g options out =
  Ret (out ++ [newline] ++
       concat ((fun row => (signOfByte options <$> row) ++ [newline]) <$> origin g) ++
       [newline]).
Proof.
  intros Hasx.
  pose proof Hwf as (HX & HY & Hlen & Hrows).
  unfold printGrid. rewrite Hasx.
  destruct (forRange_invariant
              (fun i o => printRow g i options o)
              (fun i o => o = (out ++ [newline]) ++
                 concat ((fun row => (signOfByte options <$> row) ++ [newline])
                           <$> take (Z.to_nat i) (origin g)))
              0 (gridSizeX g) (putc newline out) HX) as (o1 & Hrun & Ho1).
  - simpl. by rewrite app_nil_r.
  - intros i o Hi ->.
    destruct (lookup_lt_is_Some_2 (origin g) (Z.to_nat i)) as [row Hrow]; [lia|].
    rewrite (printRow_signs i row) by (lia || done).
    eexists. split; [done|].
    replace (Z.to_nat (i + 1)) with (S (Z.to_nat i)) by lia.
    rewrite (take_S_r _ _ _ Hrow), fmap_app, concat_app. simpl.
    by rewrite app_nil_r, <- !app_assoc.
  - rewrite Hrun. simpl. rewrite Ho1, take_ge by lia.
    unfold putc. by rewrite <- !app_assoc.
Qed.

(** The sign of a char in the storage is the sign of the cell as read. *)
Lemma signs_of_cells (fuel : nat) :
  (fun row => (signOfByte options <$> row) ++ [newline]) <$> origin g =
  (fun x => (cellSign fuel options g x <$> seqZ 0 (gridSizeY g)) ++ [newline])
    <$> seqZ 0 (gridSizeX g).
Proof.
  pose proof Hwf as (HX & HY & Hlen & Hrows).
  apply list_eq. intros n. rewrite !list_lookup_fmap.
  destruct (decide (Z.of_nat n < gridSizeX g)) as [Hn|Hn].
  - rewrite lookup_seqZ_lt by done.
    destruct (lookup_lt_is_Some_2 (origin g) n) as [row Hrow]; [lia|].
    rewrite Hrow. simpl. f_equal. f_equal.
    pose proof (proj1 (Forall_lookup _ _) Hrows _ _ Hrow) as Hrl. simpl in Hrl.
    apply list_eq. intros m. rewrite !list_lookup_fmap.
    destruct (decide (Z.of_nat m < gridSizeY g)) as [Hm|Hm].
    + rewrite lookup_seqZ_lt by done.
      destruct (lookup_lt_is_Some_2 row m) as [c Hc]; [lia|].
      rewrite Hc. simpl. f_equal.
      destruct (getCell_inBounds fuel g (Z.of_nat n) (Z.of_nat m) Hwf
                  ltac:(split; lia)) as (c' & Hc' & Hget).
      unfold cellByte in Hc'. rewrite !Nat2Z.id, Hrow, Hc in Hc'.
      injection Hc' as <-.
      unfold cellSign. rewrite !Z.add_0_l, Hget.
      unfold signOfByte, signOfState, stateOfByte. by destruct (c =? 0).
    + rewrite lookup_seqZ_ge by lia.
      rewrite (lookup_ge_None_2 row m) by lia. done.
  - rewrite lookup_seqZ_ge by lia.
    rewrite (lookup_ge_None_2 (origin g) n) by lia. done.
Qed.

Lemma frame_length :
  length (concat ((fun row => (signOfByte options <$> row) ++ [newline]) <$> origin g)) =
  (Z.to_nat (gridSizeX g) * (Z.to_nat (gridSizeY g) + 1))%nat.
Proof.
  destruct Hwf as (_ & _ & Hlen & Hrows). rewrite <- Hlen. clear Hlen.
  induction Hrows as [|row rows Hrow _ IH]; [done|].
  rewrite fmap_cons. cbn [concat].
  rewrite !length_app, length_fmap, IH, Hrow. cbn [length]. lia.
Qed.

End PrintGrid.

(** X15. [printGrid] prints what [getCell] reads: on a grid (with
    [arraySizeX] equal to [gridSizeX], as [createGrid] sets it, and
    [gridSizeY] a [long long]) it writes a newline, then for each
    [x = 0 .. gridSizeX - 1] one line holding the sign of the cell [(x, y)]
    for [y = 0 .. gridSizeY - 1], then a newline:
    [2 + gridSizeX * (gridSizeY + 1)] characters. *)
Theorem printGrid_output (fuel : nat) (g : Grid) (options : PrintOptions) (out : list Z) :
  wfGrid g -> gridSizeY g <= LLONG_MAX -> arraySizeX g = gridSizeX g ->
  exists frame,
    printGrid g options out = Ret (out ++ frame) /\
    frame = [newline] ++
            concat ((fun x => (cellSign fuel options g x <$> seqZ 0 (gridSizeY g))
                              ++ [newline]) <$> seqZ 0 (gridSizeX g)) ++
            [newline] /\
    length frame = (2 + Z.to_nat (gridSizeX g) * (Z.to_nat (gridSizeY g) + 1))%nat.
Proof.
  intros Hwf HsizeY Hasx.
  eexists. split; [|split; [reflexivity|]].
  - rewrite (printGrid_signs g options Hwf HsizeY out Hasx).
    by rewrite (signs_of_cells g options Hwf fuel).
  - rewrite <- (signs_of_cells g options Hwf fuel).
    simpl. rewrite length_app, (frame_length g options Hwf). simpl. lia.
Qed.

Lemma printGrid_output_witness :
  wfGrid blinkerGrid /\
  exists frame,
    printGrid blinkerGrid {| signForOff := 46; signForOn := 79 |} [] = Ret ([] ++ frame) /\
    length frame = 32%nat.
Proof.
  assert (Hwf : wfGrid blinkerGrid) by apply blinkerGame_wf.
  split; [exact Hwf|].
  destruct (printGrid_output 0 blinkerGrid {| signForOff := 46; signForOn := 79 |} []
              Hwf ltac:(vm_compute; discriminate) eq_refl)
    as (frame & Hrun & _ & Hlen).
  exists frame. split; [exact Hrun|exact Hlen].
Defined.

(** ** More steps of a game *)

Lemma inBlock_spec (a b x y : Z) :
  inBlock a b x y = true <-> (a <= x <= a + 1) /\ (b <= y <= b + 1).
Proof.
  unfold inBlock.
  destruct (Z.leb_spec a x), (Z.leb_spec x (a + 1)),
    (Z.leb_spec b y), (Z.leb_spec y (b + 1)); simpl; split; (done || lia).
Qed.

Lemma block_step (a b x y : Z) :
  b3s23 (c_bool (inBlock a b x y)) (patternNeighbours (inBlock a b) x y) =
  c_bool (inBlock a b x y).
Proof.
  unfold patternNeighbours, neighbourhood, inBlock.
  cbn [List.filter fst snd]. decide_tests; reflexivity.
Qed.

(** X16. The block is a still life wherever it lies: in a game with rule
    AllOff whose current grid reads On exactly on the 2 by 2 block with
    corner [(a, b)], inside the grid, [iterateGame] returns a game whose
    current grid reads On exactly on the same block. *)
Theorem block_still_life (fuel : nat) (gm : Game) (a b : Z) :
  wfGame gm -> currentGridPtr gm <> PtrOther ->
  outOfBoundsRule (currentGrid gm) = GOL__OOBR__ALL_OFF ->
  0 <= a -> a + 1 < gridSizeX (currentGrid gm) ->
  0 <= b -> b + 1 < gridSizeY (currentGrid gm) ->
  (forall x y, inBounds (currentGrid gm) x y ->
     (getCell (S fuel) (currentGrid gm) x y = Ret GOL__CELL_STATE__ON <->
      (a <= x <= a + 1) /\ (b <= y <= b + 1))) ->
  exists gm', iterateGame (S fuel) gm = Ret gm' /\
    sameShape (currentGrid gm) (currentGrid gm') /\
    forall x y, inBounds (currentGrid gm') x y ->
      (getCell (S fuel) (currentGrid gm') x y = Ret GOL__CELL_STATE__ON <->
       (a <= x <= a + 1) /\ (b <= y <= b + 1)).
Proof.
  intros Hwf Hptr Hrule Ha HaX Hb HbY Hcells.
  destruct (wfGame_current gm Hwf) as (Hwc & _ & _ & _).
  destruct (iterateGame_pattern fuel gm (inBlock a b) Hwf Hptr Hrule)
    as (gm' & Hrun & _ & _ & Hsh & Hcells').
  { intros x y HP. apply inBlock_spec in HP. unfold inBounds. lia. }
  { intros x y Hin. apply reads_of_pattern; [done..|].
    rewrite inBlock_spec. by apply Hcells. }
  exists gm'. split; [done|]. split; [done|].
  intros x y Hin. rewrite <- inBlock_spec. apply pattern_of_reads.
  rewrite Hcells', block_step; eauto with grid.
Qed.

Lemma blockGame_wf : wfGame blockGame.
Proof.
  unfold wfGame, wfGrid, sameShape, validRule. simpl.
  split_and!; try done; try lia; auto; repeat constructor.
Qed.

Lemma blockGame_reads (x y : Z) :
  inBounds (currentGrid blockGame) x y ->
  (getCell 1 (currentGrid blockGame) x y = Ret GOL__CELL_STATE__ON <->
   (1 <= x <= 1 + 1) /\ (1 <= y <= 1 + 1)).
Proof.
  intros [Hx Hy]. simpl in Hx, Hy.
  assert (x = 0 \/ x = 1 \/ x = 2 \/ x = 3) as [-> | [-> | [-> | ->]]] by lia;
    assert (y = 0 \/ y = 1 \/ y = 2 \/ y = 3) as [-> | [-> | [-> | ->]]] by lia;
    change (getCell 1 (currentGrid blockGame) _ _) with (@Ret Z 0) ||
    change (getCell 1 (currentGrid blockGame) _ _) with (@Ret Z 1);
    split; (lia || discriminate || reflexivity || (intros; split; lia)).
Qed.

Lemma block_still_life_witness :
  wfGame blockGame /\
  exists gm', iterateGame 1 blockGame = Ret gm' /\
    forall x y, inBounds (currentGrid gm') x y ->
      (getCell 1 (currentGrid gm') x y = Ret GOL__CELL_STATE__ON <->
       (1 <= x <= 1 + 1) /\ (1 <= y <= 1 + 1)).
Proof.
  split; [exact blockGame_wf|].
  destruct (block_still_life 0 blockGame 1 1 blockGame_wf ltac:(discriminate) eq_refl
              ltac:(lia) ltac:(simpl; lia) ltac:(lia) ltac:(simpl; lia) blockGame_reads)
    as (gm' & Hrun & _ & Hcells).
  exists gm'. split; [exact Hrun|exact Hcells].
Defined.

Lemma forLoop_skip {St : Type} (n : nat) (i : Z) (s : St) :
  forLoop n i (fun _ t => Ret t) s = Ret s.
Proof. revert i. induction n as [|n IH]; intros i; simpl; [done|apply IH]. Qed.

Lemma iterateGrid_empty (fuel : nat) (src trg : Grid) :
  gridSizeX src <= 0 \/ gridSizeY src <= 0 ->
  iterateGrid fuel src trg = Ret trg.
Proof.
  intros Hempty. unfold iterateGrid, forRange.
  destruct Hempty as [HX|HY].
  - by replace (Z.to_nat (gridSizeX src - 0)) with 0%nat by lia.
  - replace (Z.to_nat (gridSizeY src - 0)) with 0%nat by lia.
    simpl. apply forLoop_skip.
Qed.

(** X17. A game without cells: when a size of the current grid is 0,
    [iterateGame] returns, reads and writes no cell and only makes the other
    grid current. This holds under every rule, the torus included, where
    any call of [getCell] on such a grid divides by zero. *)
Theorem iterateGame_empty (fuel : nat) (gm : Game) :
  gridSizeX (currentGrid gm) <= 0 \/ gridSizeY (currentGrid gm) <= 0 ->
  iterateGame fuel gm = Ret (flipCurrent gm).
Proof.
  unfold iterateGame, flipCurrent, currentGrid.
  destruct (currentGridPtr gm); intros Hempty; [| |done].
  - by rewrite iterateGrid_empty.
  - by rewrite iterateGrid_empty.
Qed.

Lemma iterateGame_empty_witness :
  getCell 1 (currentGrid (emptyGame 3 0 GOL__OOBR__TORUS)) 0 0 = Undefined /\
  iterateGame 1 (emptyGame 3 0 GOL__OOBR__TORUS) =
    Ret (flipCurrent (emptyGame 3 0 GOL__OOBR__TORUS)).
Proof.
  split; [reflexivity|].
  apply (iterateGame_empty 1 (emptyGame 3 0 GOL__OOBR__TORUS)).
  right. simpl. lia.
Defined.

(** X18. The next generation does not depend on the grid it overwrites:
    two games with the same current grid and the same current pointer step
    to games whose current grids read the same at every coordinate,
    whatever the other grids held. *)
Theorem iterateGame_overwrites (fuel : nat) (gm1 gm2 : Game) :
  wfGame gm1 -> wfGame gm2 ->
  currentGridPtr gm1 <> PtrOther -> currentGridPtr gm2 = currentGridPtr gm1 ->
  currentGrid gm2 = currentGrid gm1 ->
  exists gm1' gm2',
    iterateGame (S fuel) gm1 = Ret gm1' /\
    iterateGame (S fuel) gm2 = Ret gm2' /\
    forall x y, getCell (S fuel) (currentGrid gm2') x y =
                getCell (S fuel) (currentGrid gm1') x y.
Proof.
  intros Hwf1 Hwf2 Hptr1 Hptr Hcur.
  destruct (iterateGame_spec fuel gm1 Hwf1 Hptr1)
    as (gm1' & Hrun1 & Hwf1' & Hp1' & _ & _ & Hsh1 & Hcells1).
  destruct (iterateGame_spec fuel gm2 Hwf2 ltac:(by rewrite Hptr))
    as (gm2' & Hrun2 & Hwf2' & Hp2' & _ & _ & Hsh2 & Hcells2).
  rewrite Hcur in Hsh2, Hcells2.
  exists gm1', gm2'. split; [done|]. split; [done|].
  destruct (wfGame_current gm1 Hwf1) as (_ & _ & _ & Hrule).
  destruct (wfGame_current gm1' Hwf1') as (Hw1 & _ & _ & _).
  destruct (wfGame_current gm2' Hwf2') as (Hw2 & _ & _ & _).
  set (g0 := currentGrid gm1) in *.
  set (g1 := currentGrid gm1') in *. set (g2 := currentGrid gm2') in *.
  pose proof Hsh1 as (HX1 & HY1 & HR1). pose proof Hsh2 as (HX2 & HY2 & HR2).
  assert (Hinb : forall a b, inBounds g0 a b ->
            getCell (S fuel) g2 a b = getCell (S fuel) g1 a b).
  { intros a b Hab. by rewrite Hcells1, Hcells2. }
  intros x y.
  destruct (inBounds_dec g0 x y) as [Hin|Hout]; [by apply Hinb|].
  assert (Hout1 : ~ inBounds g1 x y) by (unfold inBounds in *; by rewrite <- HX1, <- HY1).
  assert (Hout2 : ~ inBounds g2 x y) by (unfold inBounds in *; by rewrite <- HX2, <- HY2).
  destruct Hrule as [Hr|[Hr|Hr]].
  - rewrite !getCell_outside_ALL_OFF; (done || congruence).
  - rewrite !getCell_outside_ALL_ON; (done || congruence).
  - destruct (decide (0 < gridSizeX g0 /\ 0 < gridSizeY g0)) as [[HX HY]|Hempty].
    + rewrite (getCell_torus fuel g1), (getCell_torus fuel g2)
        by (done || congruence || lia).
      rewrite <- HX1, <- HY1, <- HX2, <- HY2. apply Hinb.
      split; apply Z.mod_pos_bound; done.
    + destruct Hw1 as (? & ? & _).
      rewrite !getCell_torus_empty; (done || congruence || lia).
Qed.

Lemma iterateGame_overwrites_witness :
  exists gm1' gm2',
    iterateGame 1 blinkerGame = Ret gm1' /\
    iterateGame 1 {| gridA := blinkerGrid; gridB := blinkerGrid;
                     currentGridPtr := PtrGridA |} = Ret gm2' /\
    forall x y, getCell 1 (currentGrid gm2') x y = getCell 1 (currentGrid gm1') x y.
Proof.
  apply (iterateGame_overwrites 0 blinkerGame
           {| gridA := blinkerGrid; gridB := blinkerGrid; currentGridPtr := PtrGridA |}).
  - exact blinkerGame_wf.
  - pose proof blinkerGame_wf as (HA & _ & _ & Hr).
    unfold wfGame, sameShape. simpl. tauto.
  - discriminate.
  - reflexivity.
  - reflexivity.
Defined.

(** ** The loop of [printAndIterateGameLoop] *)

Lemma putByte_arraySizeX (g : Grid) (x y v : Z) :
  arraySizeX (putByte g x y v) = arraySizeX g.
Proof. unfold putByte. by destruct (origin g !! Z.to_nat x). Qed.

Lemma setCell_arraySizeX (fuel : nat) (g : Grid) (x y newState : Z) (g' : Grid) (err : Z) :
  setCell fuel g x y newState = Ret (g', err) -> arraySizeX g' = arraySizeX g.
Proof.
  intros Hset.
  destruct (setCell_result _ _ _ _ _ _ _ Hset)
    as [[-> _]|(x' & y' & c & _ & _ & _ & [[_ ->]|[_ ->]])];
    [done|apply putByte_arraySizeX..].
Qed.

Lemma iterateGrid_arraySizeX (fuel : nat) (src trg trg' : Grid) :
  iterateGrid fuel src trg = Ret trg' -> arraySizeX trg' = arraySizeX trg.
Proof.
  unfold iterateGrid.
  apply (forRange_preserves _ (fun t => arraySizeX t = arraySizeX trg)); [|done].
  intros i t t' Hkeep.
  apply (forRange_preserves _ (fun t => arraySizeX t = arraySizeX trg)); [|done].
  clear. intros j t t' Hkeep Hcell.
  destruct (iterateCell_result _ _ _ _ _ _ Hcell) as (s & e & Hset).
  apply setCell_arraySizeX in Hset. congruence.
Qed.

Lemma printGrid_length (g : Grid) (options : PrintOptions) (out : list Z) :
  wfGrid g -> gridSizeY g <= LLONG_MAX -> arraySizeX g = gridSizeX g ->
  exists out', printGrid g options out = Ret out' /\
    length out' =
    (length out + (2 + Z.to_nat (gridSizeX g) * (Z.to_nat (gridSizeY g) + 1)))%nat.
Proof.
  intros Hwf HsizeY Hasx. eexists. split.
  - by apply printGrid_signs.
  - rewrite !length_app, (frame_length g options Hwf). simpl. lia.
Qed.

(** What [loopRound] needs of a game and keeps: the game is well-formed,
    one of its grids is current, and the grids are sized as [createGrid]
    sizes them. *)
Lemma loopRound_keeps (fuel : nat) (options : PrintOptions) (gm : Game) (out : list Z) :
  wfGame gm -> currentGridPtr gm <> PtrOther ->
  arraySizeX (gridA gm) = gridSizeX (gridA gm) ->
  arraySizeX (gridB gm) = gridSizeX (gridB gm) ->
  gridSizeY (gridA gm) <= LLONG_MAX ->
  exists gm' out', loopRound (S fuel) options (gm, out) = Ret (gm', out') /\
    (wfGame gm' /\ currentGridPtr gm' <> PtrOther /\
     arraySizeX (gridA gm') = gridSizeX (gridA gm') /\
     arraySizeX (gridB gm') = gridSizeX (gridB gm') /\
     sameShape (gridA gm) (gridA gm')) /\
    length out' =
    (length out + (2 + Z.to_nat (gridSizeX (gridA gm)) *
                       (Z.to_nat (gridSizeY (gridA gm)) + 1)))%nat.
Proof.
  intros Hwf Hptr HasA HasB HsizeY.
  pose proof Hwf as (HwA & HwB & (HsX & HsY & HsR) & _).
  destruct (iterateGame_spec fuel gm Hwf Hptr)
    as (gm' & Hrun & Hwf' & Hptr' & _ & _ & _ & _).
  assert (Hprint : exists out', printGame gm options out = Ret out' /\
            length out' =
            (length out + (2 + Z.to_nat (gridSizeX (gridA gm)) *
                               (Z.to_nat (gridSizeY (gridA gm)) + 1)))%nat).
  { unfold printGame. destruct (currentGridPtr gm); [| |done].
    - by apply printGrid_length.
    - rewrite HsX, HsY. apply printGrid_length; [done|lia|done]. }
  destruct Hprint as (out' & Hprint & Hlen).
  exists gm', out'. split.
  { unfold loopRound. simpl. by rewrite Hprint, Hrun. }
  split; [|done].
  pose proof Hwf' as (_ & _ & (HsX' & HsY' & HsR') & _).
  unfold iterateGame in Hrun. destruct (currentGridPtr gm); [| |done].
  - destruct (iterateGrid (S fuel) (gridA gm) (gridB gm)) as [t| |] eqn:Hgrid;
      try done.
    apply iterateGrid_arraySizeX in Hgrid. injection Hrun as <-. simpl in *.
    split_and!; try done. lia.
  - destruct (iterateGrid (S fuel) (gridB gm) (gridA gm)) as [t| |] eqn:Hgrid;
      try done.
    apply iterateGrid_arraySizeX in Hgrid. injection Hrun as <-. simpl in *.
    split_and!; try done; try lia.
    unfold sameShape. lia.
Qed.

(** X19. The loop of [printAndIterateGameLoop] is safe: on a game as
    [createGame] makes it (well-formed, a grid of the game current, sizes of
    the storage set from the sizes of the grid, [gridSizeY] a [long long])
    any number [n] of iterations of the loop body returns, with a game that
    is again such a game, and writes [n] frames of
    [2 + gridSizeX * (gridSizeY + 1)] characters each. *)
Theorem loopRounds_frames (fuel : nat) (options : PrintOptions) (n : nat)
    (gm : Game) (out : list Z) :
  wfGame gm -> currentGridPtr gm <> PtrOther ->
  arraySizeX (gridA gm) = gridSizeX (gridA gm) ->
  arraySizeX (gridB gm) = gridSizeX (gridB gm) ->
  gridSizeY (gridA gm) <= LLONG_MAX ->
  exists gm' out', loopRounds (S fuel) options n (gm, out) = Ret (gm', out') /\
    wfGame gm' /\ currentGridPtr gm' <> PtrOther /\
    length out' =
    (length out + n * (2 + Z.to_nat (gridSizeX (gridA gm)) *
                           (Z.to_nat (gridSizeY (gridA gm)) + 1)))%nat.
Proof.
  revert gm out. induction n as [|n IH]; intros gm out Hwf Hptr HasA HasB HsizeY.
  - exists gm, out. simpl. split_and!; try done; lia.
  - destruct (loopRound_keeps fuel options gm out Hwf Hptr HasA HasB HsizeY)
      as (gm1 & out1 & Hround & (Hwf1 & Hptr1 & HasA1 & HasB1 & HsX & HsY & _) & Hlen1).
    destruct (IH gm1 out1 Hwf1 Hptr1 HasA1 HasB1 ltac:(by rewrite <- HsY))
      as (gm' & out' & Hrest & Hwf' & Hptr' & Hlen').
    exists gm', out'. cbn [loopRounds]. rewrite Hround. simpl.
    split_and!; try done.
    rewrite Hlen', Hlen1, <- HsX, <- HsY. lia.
Qed.

Lemma loopRounds_frames_witness :
  wfGame blinkerGame /\
  exists gm' out',
    loopRounds 1 {| signForOff := 46; signForOn := 79 |} 3 (blinkerGame, []) =
      Ret (gm', out') /\
    length out' = 96%nat.
Proof.
  split; [exact blinkerGame_wf|].
  destruct (loopRounds_frames 0 {| signForOff := 46; signForOn := 79 |} 3 blinkerGame []
              blinkerGame_wf ltac:(discriminate) eq_refl eq_refl
              ltac:(vm_compute; discriminate))
    as (gm' & out' & Hrun & _ & _ & Hlen).
  exists gm', out'. split; [exact Hrun|exact Hlen].
Defined.

(** ** The double buffer and crowded grids *)

(** X20. The two grids alternate: a step makes the other grid current and
    leaves the grid it read from as it was, so that grid is the one the
    next step overwrites; after two steps the grid that was current at
    first is current again. *)
Theorem iterateGame_alternates (fuel : nat) (gm : Game) :
  wfGame gm -> currentGridPtr gm <> PtrOther ->
  exists gm1 gm2,
    iterateGame (S fuel) gm = Ret gm1 /\
    iterateGame (S fuel) gm1 = Ret gm2 /\
    currentGridPtr gm1 <> currentGridPtr gm /\
    currentGridPtr gm2 = currentGridPtr gm /\
    otherGrid gm1 = currentGrid gm /\
    otherGrid gm2 = currentGrid gm1.
Proof.
  intros Hwf Hptr.
  destruct (iterateGame_spec fuel gm Hwf Hptr)
    as (gm1 & Hrun1 & Hwf1 & Hptr1 & Hflip1 & Hother1 & _).
  destruct (iterateGame_spec fuel gm1 Hwf1 Hptr1)
    as (gm2 & Hrun2 & _ & Hptr2 & Hflip2 & Hother2 & _).
  exists gm1, gm2. split_and!; try done.
  destruct (currentGridPtr gm), (currentGridPtr gm1), (currentGridPtr gm2); done.
Qed.

Lemma iterateGame_alternates_witness :
  exists gm1 gm2,
    iterateGame 1 blinkerGame = Ret gm1 /\
    iterateGame 1 gm1 = Ret gm2 /\
    currentGridPtr gm2 = currentGridPtr blinkerGame.
Proof.
  destruct (iterateGame_alternates 0 blinkerGame blinkerGame_wf ltac:(discriminate))
    as (gm1 & gm2 & H1 & H2 & _ & Hp & _).
  exists gm1, gm2. split; [exact H1|]. split; [exact H2|exact Hp].
Defined.

Lemma onNeighbours_eight (fuel : nat) (g : Grid) (x y : Z) :
  (forall a b, getCell fuel g a b = Ret GOL__CELL_STATE__ON) ->
  onNeighbours fuel g x y = 8%nat.
Proof.
  intros Hon.
  assert (Hf : forall p, isOn fuel g p = true).
  { intros [a b]. unfold isOn. simpl fst. simpl snd. by rewrite Hon. }
  unfold onNeighbours, neighbourhood. cbn [List.filter].
  by rewrite !Hf.
Qed.

(** X21. A crowded grid dies: under the rule AllOn or the torus rule, if
    every cell of the current grid reads On, then after [iterateGame] every
    cell of the new current grid reads Off. *)
Theorem all_on_dies (fuel : nat) (gm : Game) :
  wfGame gm -> currentGridPtr gm <> PtrOther ->
  outOfBoundsRule (currentGrid gm) = GOL__OOBR__ALL_ON \/
  outOfBoundsRule (currentGrid gm) = GOL__OOBR__TORUS ->
  (forall x y, inBounds (currentGrid gm) x y ->
     getCell (S fuel) (currentGrid gm) x y = Ret GOL__CELL_STATE__ON) ->
  exists gm', iterateGame (S fuel) gm = Ret gm' /\
    forall x y, inBounds (currentGrid gm') x y ->
      getCell (S fuel) (currentGrid gm') x y = Ret GOL__CELL_STATE__OFF.
Proof.
  intros Hwf Hptr Hrule Hon.
  destruct (iterateGame_spec fuel gm Hwf Hptr)
    as (gm' & Hrun & _ & _ & _ & _ & Hsh & Hcells).
  destruct (wfGame_current gm Hwf) as (Hwc & _ & _ & _).
  exists gm'. split; [done|].
  intros x y Hin'.
  assert (Hin : inBounds (currentGrid gm) x y) by eauto with grid.
  assert (Hall : forall a b,
            getCell (S fuel) (currentGrid gm) a b = Ret GOL__CELL_STATE__ON).
  { intros a b. destruct (inBounds_dec (currentGrid gm) a b) as [Hab|Hab].
    - by apply Hon.
    - destruct Hrule as [Hr|Hr].
      + by apply getCell_outside_ALL_ON.
      + destruct Hin as [? ?]. rewrite getCell_torus by (done || lia).
        apply Hon. split; apply Z.mod_pos_bound; lia. }
  rewrite Hcells by done. unfold nextState.
  by rewrite Hall, onNeighbours_eight.
Qed.

Lemma all_on_dies_witness :
  wfGame {| gridA := withOrigin (emptyGrid 2 2 GOL__OOBR__TORUS) [[1; 1]; [1; 1]];
            gridB := emptyGrid 2 2 GOL__OOBR__TORUS;
            currentGridPtr := PtrGridA |} /\
  exists gm',
    iterateGame 1 {| gridA := withOrigin (emptyGrid 2 2 GOL__OOBR__TORUS) [[1; 1]; [1; 1]];
                     gridB := emptyGrid 2 2 GOL__OOBR__TORUS;
                     currentGridPtr := PtrGridA |} = Ret gm' /\
    forall x y, inBounds (currentGrid gm') x y ->
      getCell 1 (currentGrid gm') x y = Ret GOL__CELL_STATE__OFF.
Proof.
  assert (Hwf : wfGame {| gridA := withOrigin (emptyGrid 2 2 GOL__OOBR__TORUS) [[1; 1]; [1; 1]];
                          gridB := emptyGrid 2 2 GOL__OOBR__TORUS;
                          currentGridPtr := PtrGridA |}).
  { unfold wfGame, wfGrid, sameShape, validRule. simpl.
    split_and!; try done; try lia; auto; repeat constructor. }
  split; [exact Hwf|].
  apply (all_on_dies 0 _ Hwf); [discriminate|by right|].
  intros x y [Hx Hy]. simpl in Hx, Hy.
  assert (x = 0 \/ x = 1) as [-> | ->] by lia;
    assert (y = 0 \/ y = 1) as [-> | ->] by lia; reflexivity.
Defined.
